(** * design-to-code: a shallow embedding of the glue layer

    The repository is a command-line tool that chains a design model
    and a code model.  Its own logic is prompt templating, extraction of
    a JSON object from free-form response text, and the materialisation
    of a file tree.  This development embeds those parts:

    - [Text]: strings, and the backtracking regular-expression search
      behind [String.prototype.match] for the pattern the services use;
    - [Json]: JSON values with [JSON.stringify (v, null, 2)] and
      [JSON.parse];
    - [Eff]: a state-and-exception monad for the effectful code;
    - [Fs]: the file system seen through [fs] and [path], and
      [src/utils/file.ts] ([saveOutput], [saveJson], [readFile]);
    - [Response]: the extraction of the JSON object of a response;
    - [Steps]: the output writer as a sequence of primitive steps;
    - [Design]: the design specification and its value at run time;
    - [World], [Gemini], [Claude]: the outside world and the two
      services;
    - [Cli]: the command handlers of [design], [code] and [workflow];
    - [Effects]: what a run leaves behind, and sample environments;
    - [Js]: JavaScript on the values of [JSON.parse];
    - [Config], [Interactive]: the [config] and [generate] commands.

    The definitions come first; the facts about them follow. *)

From Stdlib Require Import Ascii String ZArith Lia Bool.
From Stdlib Require Import DecimalString DecimalN DecimalPos DecimalFacts.
From stdpp Require Import gmap strings list fin_maps.

Local Open Scope nat_scope.

(** ** Text *)

Module Text.

Definition chr (c : ascii) : string := String c EmptyString.

(** Characters that cannot be written inside a string literal. *)
Definition dq : string := chr "034".
Definition nl : string := chr "010".
Definition lbrace : ascii := "{".
Definition rbrace : ascii := "}".

(** [occurs c s]: the character [c] occurs in [s]. *)
Fixpoint occurs (c : ascii) (s : string) : bool :=
  match s with
  | EmptyString => false
  | String d s' => if Ascii.eqb d c then true else occurs c s'
  end.

(** *** Regular expressions

    The fragment needed for [/\{[\s\S]*\}/]: a pattern is a sequence of
    items, each a single character class or the greedy iteration of
    one.  Matching is the backtracking search of ECMAScript: at a
    given start a greedy star first tries to take one more character
    and gives characters back only when the rest of the pattern
    fails; the search tries the start positions from left to right. *)

Inductive cls :=
| Lit (c : ascii)            (* an escaped literal such as [\{] *)
| Space                      (* [\s] *)
| NonSpace                   (* [\S] *)
| Union (a b : cls).         (* a bracket class [[ab]] *)

Definition js_space (c : ascii) : bool :=
  match c with
  | "009" | "010" | "011" | "012" | "013" | " " => true
  | _ => false
  end%char.

Fixpoint cls_ok (k : cls) (c : ascii) : bool :=
  match k with
  | Lit d => Ascii.eqb c d
  | Space => js_space c
  | NonSpace => negb (js_space c)
  | Union a b => cls_ok a c || cls_ok b c
  end.

Inductive item :=
| One (k : cls)
| Star (k : cls).

Definition regex := list item.

(** [match_here r s]: the match of [r] anchored at the start of [s],
    with the priorities of backtracking. *)
Fixpoint match_here (r : regex) : string → option string :=
  match r with
  | [] => λ _, Some ""
  | One k :: r' => λ s,
      match s with
      | String c s' =>
          if cls_ok k c then String c <$> match_here r' s' else None
      | EmptyString => None
      end
  | Star k :: r' =>
      fix star (s : string) : option string :=
        match s with
        | String c s' =>
            if cls_ok k c then
              match star s' with
              | Some m => Some (String c m)
              | None => match_here r' s
              end
            else match_here r' s
        | EmptyString => match_here r' EmptyString
        end
  end.

(** [regex_exec r s]: leftmost match. *)
Fixpoint regex_exec (r : regex) (s : string) : option string :=
  match match_here r s with
  | Some m => Some m
  | None =>
      match s with
      | String _ s' => regex_exec r s'
      | EmptyString => None
      end
  end.

(** [s.match(r)] for a regex without the global flag: [null] or an
    array whose element 0 is the matched text. *)
Definition js_match (r : regex) (s : string) : option string := regex_exec r s.

(** [/\{[\s\S]*\}/] *)
Definition brace_re : regex :=
  [One (Lit lbrace); Star (Union Space NonSpace); One (Lit rbrace)].

(** The span in the words of the specification: from the first [{]
    through the last [}]. *)
Fixpoint from_first (c : ascii) (s : string) : option string :=
  match s with
  | EmptyString => None
  | String d s' => if Ascii.eqb d c then Some s else from_first c s'
  end.

Fixpoint upto_last (c : ascii) (s : string) : option string :=
  match s with
  | EmptyString => None
  | String d s' =>
      match upto_last c s' with
      | Some m => Some (String d m)
      | None => if Ascii.eqb d c then Some (chr d) else None
      end
  end.

Definition first_to_last (s : string) : option string :=
  match from_first lbrace s with
  | Some (String b s') => String b <$> upto_last rbrace s'
  | _ => None
  end.

End Text.

(** ** JSON *)

Module Json.
Import Text.

(** The values [JSON.parse] returns.  An object is the list of its own
    properties in enumeration order.  The finite numbers are modelled
    as integers in the range in which a double is exact: the fraction
    and exponent parts of the number grammar, which denote
    floating-point values, are outside the model.  A literal too large
    for a double gives an infinity.  A string is the sequence of the
    bytes of its UTF-8 form. *)
#[warnings="-register-all"]
Inductive json :=
| JNull
| JBool (b : bool)
| JNum (n : Z)
| JInf (negative : bool)
| JStr (s : string)
| JArr (l : list json)
| JObj (l : list (string * json)).

Definition max_safe_integer : Z := 9007199254740991.

Definition safe_integer (n : Z) : bool :=
  (- max_safe_integer <=? n)%Z && (n <=? max_safe_integer)%Z.

(** *** [JSON.stringify] *)

Definition hex_digit (n : N) : ascii :=
  if (n <? 10)%N then ascii_of_N (48 + n) else ascii_of_N (87 + n).

(** QuoteJSONString, one character. *)
Definition quote_char (c : ascii) : string :=
  match c with
  | "008"%char => "\b"
  | "009"%char => "\t"
  | "010"%char => "\n"
  | "012"%char => "\f"
  | "013"%char => "\r"
  | "034"%char => "\" +:+ dq
  | "092"%char => "\\"
  | _ =>
      let n := N_of_ascii c in
      if (n <? 32)%N
      then "\u00" +:+ chr (hex_digit (n / 16)) +:+ chr (hex_digit (n mod 16))
      else chr c
  end.

Fixpoint quote_body (s : string) : string :=
  match s with
  | EmptyString => ""
  | String c s' => quote_char c +:+ quote_body s'
  end.

Definition quote (s : string) : string := dq +:+ quote_body s +:+ dq.

Definition N_to_string (n : N) : string := NilEmpty.string_of_uint (N.to_uint n).

(** Number::toString for an integer. *)
Definition Z_to_string (n : Z) : string :=
  if (n <? 0)%Z then "-" +:+ N_to_string (Z.abs_N n) else N_to_string (Z.to_N n).

Fixpoint spaces (n : nat) : string :=
  match n with
  | 0 => ""
  | S n' => String " " (spaces n')
  end.

Fixpoint join (sep : string) (l : list string) : string :=
  match l with
  | [] => ""
  | [x] => x
  | x :: l' => x +:+ sep +:+ join sep l'
  end.

(** SerializeJSONProperty with a gap of two spaces; [lvl] is the nesting
    depth, so the current indent is [spaces (2 * lvl)]. *)
Fixpoint ser (lvl : nat) (v : json) {struct v} : string :=
  let sep := "," +:+ nl +:+ spaces (2 * S lvl) in
  match v with
  | JNull => "null"
  | JBool b => if b then "true" else "false"
  | JNum n => Z_to_string n
  | JInf _ => "null"
  | JStr s => quote s
  | JArr l =>
      match l with
      | [] => "[]"
      | _ =>
          "[" +:+ nl +:+ spaces (2 * S lvl) +:+ join sep (map (ser (S lvl)) l)
          +:+ nl +:+ spaces (2 * lvl) +:+ "]"
      end
  | JObj l =>
      match l with
      | [] => "{}"
      | _ =>
          "{" +:+ nl +:+ spaces (2 * S lvl)
          +:+ join sep (map (λ kv, let '(k, x) := kv in quote k +:+ ": " +:+ ser (S lvl) x) l)
          +:+ nl +:+ spaces (2 * lvl) +:+ "}"
      end
  end.

(** [JSON.stringify (v, null, 2)] *)
Definition JSON_stringify (v : json) : string := ser 0 v.

(** *** [JSON.parse] *)

Definition is_ws (c : ascii) : bool :=
  match c with
  | " " | "009" | "010" | "013" => true
  | _ => false
  end%char.

Fixpoint skip_ws (s : string) : string :=
  match s with
  | String c s' => if is_ws c then skip_ws s' else s
  | EmptyString => ""
  end.

Definition is_digit (c : ascii) : bool :=
  let n := N_of_ascii c in (48 <=? n)%N && (n <=? 57)%N.

Definition hex_value (c : ascii) : option N :=
  let n := N_of_ascii c in
  if (48 <=? n)%N && (n <=? 57)%N then Some (n - 48)%N
  else if (97 <=? n)%N && (n <=? 102)%N then Some (n - 87)%N
  else if (65 <=? n)%N && (n <=? 70)%N then Some (n - 55)%N
  else None.

(** The UTF-8 form of a code point of the basic plane; a surrogate has
    none and is outside the model. *)
Definition utf8 (n : N) : option string :=
  if (n <? 128)%N then Some (chr (ascii_of_N n))
  else if (n <? 2048)%N then
    Some (String (ascii_of_N (192 + n / 64)) (chr (ascii_of_N (128 + n mod 64))))
  else if (55296 <=? n)%N && (n <=? 57343)%N then None
  else
    Some (String (ascii_of_N (224 + n / 4096))
            (String (ascii_of_N (128 + (n / 64) mod 64))
               (chr (ascii_of_N (128 + n mod 64))))).

Definition unicode_escape (h1 h2 h3 h4 : ascii) : option string :=
  match hex_value h1, hex_value h2, hex_value h3, hex_value h4 with
  | Some a, Some b, Some c, Some d => utf8 (((a * 16 + b) * 16 + c) * 16 + d)%N
  | _, _, _, _ => None
  end.

(** The characters of a string literal after its opening quote, up to
    the closing one. *)
Fixpoint parse_string_body (s : string) : option (string * string) :=
  let cons (c : ascii) (r : option (string * string)) :=
    match r with Some (t, rest) => Some (String c t, rest) | None => None end in
  match s with
  | EmptyString => None
  | String c s' =>
      if Ascii.eqb c "034" then Some ("", s')
      else if Ascii.eqb c "\" then
        match s' with
        | String e s'' =>
            match e with
            | "034" => cons "034" (parse_string_body s'')
            | "\" => cons "\" (parse_string_body s'')
            | "/" => cons "/" (parse_string_body s'')
            | "b" => cons "008" (parse_string_body s'')
            | "f" => cons "012" (parse_string_body s'')
            | "n" => cons "010" (parse_string_body s'')
            | "r" => cons "013" (parse_string_body s'')
            | "t" => cons "009" (parse_string_body s'')
            | "u" =>
                match s'' with
                | String h1 (String h2 (String h3 (String h4 s3))) =>
                    match unicode_escape h1 h2 h3 h4, parse_string_body s3 with
                    | Some u, Some (t, rest) => Some (u +:+ t, rest)
                    | _, _ => None
                    end
                | _ => None
                end
            | _ => None
            end%char
        | EmptyString => None
        end
      else if (N_of_ascii c <? 32)%N then None
      else cons c (parse_string_body s')
  end.

Fixpoint span_digits (s : string) : string * string :=
  match s with
  | String c s' =>
      if is_digit c then let '(d, r) := span_digits s' in (String c d, r) else ("", s)
  | EmptyString => ("", "")
  end.

(** The integer part of a number: [0] or a digit string without a
    leading zero. *)
Definition parse_digits (s : string) : option (N * string) :=
  let '(ds, r) := span_digits s in
  match ds with
  | EmptyString => None
  | String "0" (String _ _) => None
  | _ =>
      match NilEmpty.uint_of_string ds with
      | Some u => Some (N.of_uint u, r)
      | None => None
      end
  end.

Definition starts_fraction (s : string) : bool :=
  match s with
  | String c _ => Ascii.eqb c "." || Ascii.eqb c "e" || Ascii.eqb c "E"
  | EmptyString => false
  end.

(** Above this bound a literal rounds to an infinity. *)
Definition overflow_bound : Z := 2 ^ 1024.

(** An integer literal: a safe integer, or an infinity when it is too
    large for a double; in between a double is inexact, which is
    outside the model, as are fractions and exponents. *)
Definition parse_number (s : string) : option (json * string) :=
  let '(neg, s1) :=
    match s with
    | String "-" s' => (true, s')
    | _ => (false, s)
    end in
  match parse_digits s1 with
  | Some (n, r) =>
      let z := if neg then (- Z.of_N n)%Z else Z.of_N n in
      if starts_fraction r then None
      else if safe_integer z then Some (JNum z, r)
      else if (overflow_bound <=? Z.abs z)%Z then Some (JInf neg, r)
      else None
  | None => None
  end.

Fixpoint expect (lit s : string) : option string :=
  match lit with
  | EmptyString => Some s
  | String c lit' =>
      match s with
      | String d s' => if Ascii.eqb c d then expect lit' s' else None
      | EmptyString => None
      end
  end.

(** CreateDataProperty on an ordinary object: a key already present
    keeps its place and takes the new value, a new key goes last.  (The
    numeric order of integer-like keys is not modelled.) *)
Fixpoint obj_set (k : string) (v : json) (o : list (string * json)) : list (string * json) :=
  match o with
  | [] => [(k, v)]
  | (k', v') :: o' => if String.eqb k' k then (k, v) :: o' else (k', v') :: obj_set k v o'
  end.

(** The elements of a non-empty array, after its opening bracket. *)
Fixpoint parse_elements (pv : string → option (json * string)) (n : nat) (s : string)
  : option (list json * string) :=
  match n with
  | 0 => None
  | S n' =>
      match pv s with
      | Some (v, r) =>
          match skip_ws r with
          | String "," r' =>
              match parse_elements pv n' r' with
              | Some (vs, r'') => Some (v :: vs, r'')
              | None => None
              end
          | String "]" r' => Some ([v], r')
          | _ => None
          end
      | None => None
      end
  end.

(** The members of a non-empty object, after its opening brace. *)
Fixpoint parse_members (pv : string → option (json * string)) (n : nat) (s : string)
    (acc : list (string * json)) : option (list (string * json) * string) :=
  match n with
  | 0 => None
  | S n' =>
      match skip_ws s with
      | String "034" r =>
          match parse_string_body r with
          | Some (k, r1) =>
              match skip_ws r1 with
              | String ":" r2 =>
                  match pv r2 with
                  | Some (v, r3) =>
                      match skip_ws r3 with
                      | String "," r4 => parse_members pv n' r4 (obj_set k v acc)
                      | String "}" r4 => Some (obj_set k v acc, r4)
                      | _ => None
                      end
                  | None => None
                  end
              | _ => None
              end
          | None => None
          end
      | _ => None
      end
  end.

Fixpoint parse_value (fuel : nat) (s : string) : option (json * string) :=
  match fuel with
  | 0 => None
  | S f =>
      match skip_ws s with
      | String c r =>
          match c with
          | "{"%char =>
              match skip_ws r with
              | String "}" r' => Some (JObj [], r')
              | _ =>
                  match parse_members (parse_value f) f r [] with
                  | Some (l, r') => Some (JObj l, r')
                  | None => None
                  end
              end
          | "["%char =>
              match skip_ws r with
              | String "]" r' => Some (JArr [], r')
              | _ =>
                  match parse_elements (parse_value f) f r with
                  | Some (l, r') => Some (JArr l, r')
                  | None => None
                  end
              end
          | "034"%char =>
              match parse_string_body r with
              | Some (t, r') => Some (JStr t, r')
              | None => None
              end
          | "t"%char => match expect "rue" r with Some r' => Some (JBool true, r') | None => None end
          | "f"%char => match expect "alse" r with Some r' => Some (JBool false, r') | None => None end
          | "n"%char => match expect "ull" r with Some r' => Some (JNull, r') | None => None end
          | _ => parse_number (String c r)
          end
      | EmptyString => None
      end
  end.

(** [JSON.parse s]: [None] stands for the SyntaxError. *)
Definition JSON_parse (s : string) : option json :=
  match parse_value (S (String.length s)) s with
  | Some (v, r) =>
      match skip_ws r with
      | EmptyString => Some v
      | _ => None
      end
  | None => None
  end.






(** The printed form of a member of an object. *)
Definition member (lvl : nat) (kv : string * json) : string :=
  let '(k, x) := kv in quote k +:+ ": " +:+ ser lvl x.

End Json.

(** ** Effects *)

Module Eff.

(** The outcome of a computation that may throw. *)
Inductive outcome (E A : Type) :=
| Ok (a : A)
| Throw (e : E).
Arguments Ok {E A} a.
Arguments Throw {E A} e.

(** A computation over a state [St] that returns or throws, and leaves
    the state it had reached either way. *)
Definition M (St E A : Type) : Type := St → St * outcome E A.

Definition ret {St E A} (a : A) : M St E A := λ s, (s, Ok a).

Definition throw {St E A} (e : E) : M St E A := λ s, (s, Throw e).

Definition bind {St E A B} (m : M St E A) (k : A → M St E B) : M St E B :=
  λ s, match m s with
       | (s', Ok a) => k a s'
       | (s', Throw e) => (s', Throw e)
       end.

(** [try { m } catch (e) { h e }] *)
Definition try_catch {St E A} (m : M St E A) (h : E → M St E A) : M St E A :=
  λ s, match m s with
       | (s', Ok a) => (s', Ok a)
       | (s', Throw e) => h e s'
       end.

Definition gets {St E A} (f : St → A) : M St E A := λ s, (s, Ok (f s)).

Definition modify {St E} (f : St → St) : M St E unit := λ s, (f s, Ok tt).

(** [for (const x of l) { body x }] *)
Fixpoint for_each {St E A} (l : list A) (body : A → M St E unit) : M St E unit :=
  match l with
  | [] => ret tt
  | x :: l' => bind (body x) (λ _, for_each l' body)
  end.

(** Runs a computation on a component of a larger state. *)
Definition zoom {St T E A} (get : T → St) (set : St → T → T) (m : M St E A) : M T E A :=
  λ t, match m (get t) with
       | (s', r) => (set s' t, r)
       end.

End Eff.

Notation "'let!' x ':=' m 'in' k" := (Eff.bind m (λ x, k))
  (at level 10, x name, m at level 100, k at level 200).

(** ** The file system, [path] and [src/utils/file.ts] *)

Module Fs.
Import Text Eff.

(** *** [path] (POSIX flavour)

    The file system is keyed by resolved paths: the segments from the
    root, the working directory being taken to be the root. *)

Fixpoint split_slash (s : string) : list string :=
  match s with
  | EmptyString => [""]
  | String c s' =>
      if Ascii.eqb c "/" then "" :: split_slash s'
      else
        match split_slash s' with
        | x :: l => String c x :: l
        | [] => [chr c]
        end
  end.

(** normalizeString: drops empty and [.] segments and resolves [..];
    [above] tells whether a [..] that climbs over the start is kept
    (relative path) or dropped (at the root).  [acc] is reversed. *)
Fixpoint normalize_segs (above : bool) (acc : list string) (segs : list string) : list string :=
  match segs with
  | [] => rev acc
  | x :: segs' =>
      if String.eqb x "" || String.eqb x "." then normalize_segs above acc segs'
      else if String.eqb x ".." then
        match acc with
        | a :: acc' =>
            if String.eqb a ".." then normalize_segs above (x :: acc) segs'
            else normalize_segs above acc' segs'
        | [] => normalize_segs above (if above then [x] else []) segs'
        end
      else normalize_segs above (x :: acc) segs'
  end.

Definition is_absolute (s : string) : bool :=
  match s with
  | String "/" _ => true
  | _ => false
  end.

Definition ends_with_slash (s : string) : bool :=
  match last (split_slash s) with
  | Some EmptyString => negb (String.eqb s "")
  | _ => false
  end.

(** [path.normalize] *)
Definition path_normalize (s : string) : string :=
  if String.eqb s "" then "."
  else
    let body := Json.join "/" (normalize_segs (negb (is_absolute s)) [] (split_slash s)) in
    if String.eqb body "" then
      if is_absolute s then "/" else if ends_with_slash s then "./" else "."
    else
      (if is_absolute s then "/" else "") +:+ body +:+ (if ends_with_slash s then "/" else "").

(** [path.join (a, b)] *)
Definition path_join (a b : string) : string :=
  if String.eqb a "" then (if String.eqb b "" then "." else path_normalize b)
  else if String.eqb b "" then path_normalize a
  else path_normalize (a +:+ "/" +:+ b).

Fixpoint drop_trailing_empty (l : list string) : list string :=
  match l with
  | [] => []
  | x :: l' =>
      match drop_trailing_empty l' with
      | [] => if String.eqb x "" then [] else [x]
      | l'' => x :: l''
      end
  end.

(** [path.dirname]: the path up to its last separator, trailing
    separators apart. *)
Definition path_dirname (s : string) : string :=
  match drop_trailing_empty (split_slash s) with
  | [] => if is_absolute s then "/" else "."
  | segs =>
      match removelast segs with
      | [] => "."
      | [EmptyString] => "/"
      | d => Json.join "/" d
      end
  end.

Abbreviation path := (list string).

(** The resolved form of a path string. *)
Definition resolve (s : string) : path := normalize_segs false [] (split_slash s).

Definition parent (p : path) : path := removelast p.

Definition show_path (p : path) : string := "/" +:+ Json.join "/" p.

(** *** [fs] *)

Inductive node :=
| File (content : string)
| Dir.

Inductive errno := ENOENT | EISDIR | ENOTDIR | EEXIST.

(** What the code throws: [new Error (message)], the SyntaxError of
    [JSON.parse], and the system errors of [fs]. *)
Inductive error :=
| Error (message : string)
| SyntaxError
| SystemError (code : errno) (syscall : string) (p : path).

Definition errno_text (c : errno) : string :=
  match c with
  | ENOENT => "ENOENT: no such file or directory"
  | EISDIR => "EISDIR: illegal operation on a directory"
  | ENOTDIR => "ENOTDIR: not a directory"
  | EEXIST => "EEXIST: file already exists"
  end.

(** [error.message]; the text of a SyntaxError is the engine's, a fixed
    text stands for it. *)
Definition message (e : error) : string :=
  match e with
  | Error m => m
  | SyntaxError => "Unexpected token in JSON"
  | SystemError c call p => errno_text c +:+ ", " +:+ call +:+ " '" +:+ show_path p +:+ "'"
  end.

(** The node at a resolved path; the root is always a directory. *)
Definition stat (fs : gmap path node) (p : path) : option node :=
  match p with
  | [] => Some Dir
  | _ => fs !! p
  end.

Definition is_file (o : option node) : bool :=
  match o with
  | Some (File _) => true
  | _ => false
  end.

Abbreviation IO := (M (gmap path node) error).

(** [fs.existsSync] *)
Definition existsSync (s : string) : IO bool :=
  gets (λ fs, bool_decide (is_Some (stat fs (resolve s)))).

(** [mkdir -p] along [rest] below [pre]: a directory on the way is
    entered, a missing one created, a file stops the walk. *)
Fixpoint mkdir_walk (target pre : path) (rest : list string) : IO unit :=
  match rest with
  | [] => ret tt
  | x :: rest' =>
      let q := pre ++ [x] in
      λ fs,
        match stat fs q with
        | Some Dir => mkdir_walk target q rest' fs
        | Some (File _) =>
            (fs, Throw (SystemError (match rest' with [] => EEXIST | _ => ENOTDIR end)
                          "mkdir" target))
        | None => mkdir_walk target q rest' (<[q := Dir]> fs)
        end
  end.

(** [fs.mkdirSync (s, { recursive: true })] *)
Definition mkdirSync_recursive (s : string) : IO unit :=
  mkdir_walk (resolve s) [] (resolve s).

(** [fs.writeFileSync (s, content)] *)
Definition writeFileSync (s : string) (content : string) : IO unit :=
  λ fs,
    let p := resolve s in
    match stat fs p with
    | Some Dir => (fs, Throw (SystemError EISDIR "open" p))
    | _ =>
        match stat fs (parent p) with
        | Some Dir => (<[p := File content]> fs, Ok tt)
        | Some (File _) => (fs, Throw (SystemError ENOTDIR "open" p))
        | None => (fs, Throw (SystemError ENOENT "open" p))
        end
    end.

(** [fs.readFileSync (s, 'utf-8')] *)
Definition readFileSync (s : string) : IO string :=
  λ fs,
    let p := resolve s in
    match stat fs p with
    | Some (File c) => (fs, Ok c)
    | Some Dir => (fs, Throw (SystemError EISDIR "read" p))
    | None => (fs, Throw (SystemError ENOENT "open" p))
    end.

(** [fs.unlinkSync] *)
Definition unlinkSync (s : string) : IO unit :=
  λ fs,
    let p := resolve s in
    match stat fs p with
    | Some (File _) => (delete p fs, Ok tt)
    | Some Dir => (fs, Throw (SystemError EISDIR "unlink" p))
    | None => (fs, Throw (SystemError ENOENT "unlink" p))
    end.

(** *** [src/utils/file.ts] *)

Record CodeFile := {
  cf_path : string;
  cf_content : string;
  cf_language : string;
}.

Record GeneratedCode := {
  files : list CodeFile;
  instructions : string;
}.

(** [if (!fs.existsSync (d)) fs.mkdirSync (d, { recursive: true })] *)
Definition ensureDir (d : string) : IO unit :=
  let! ex := existsSync d in
  if negb ex then mkdirSync_recursive d else ret tt.

(** The body of the loop of [saveOutput]. *)
Definition saveFile (outputDir : string) (file : CodeFile) : IO unit :=
  let filePath := path_join outputDir (cf_path file) in
  let fileDir := path_dirname filePath in
  let! _ := ensureDir fileDir in
  writeFileSync filePath (cf_content file).

Definition setup_header : string := "# Setup Instructions" +:+ nl +:+ nl.

Definition saveOutput (code : GeneratedCode) (outputDir : string) : IO unit :=
  let! _ := ensureDir outputDir in
  let! _ := for_each (files code) (saveFile outputDir) in
  if negb (String.eqb (instructions code) "") then
    let readmePath := path_join outputDir "SETUP.md" in
    writeFileSync readmePath (setup_header +:+ instructions code)
  else ret tt.

Definition saveJson (data : Json.json) (filePath : string) : IO unit :=
  let dir := path_dirname filePath in
  let! _ := ensureDir dir in
  writeFileSync filePath (Json.JSON_stringify data).

Definition readFile (filePath : string) : IO string :=
  let! ex := existsSync filePath in
  if negb ex then throw (Error ("File not found: " +:+ filePath))
  else readFileSync filePath.

End Fs.

(** ** Extraction of the JSON object of a response *)

Module Response.
Import Text Json Eff Fs.

(** The five places that run the extraction. *)
Inductive context :=
| InGenerateDesign
| InAnalyzeImage
| InRefineDesign
| InGenerateCode
| InAddFeature.

Definition parse_failure (c : context) : string :=
  match c with
  | InGenerateDesign => "Failed to parse design specification from Gemini response"
  | InAnalyzeImage => "Failed to parse design from image"
  | InRefineDesign => "Failed to parse refined design"
  | InGenerateCode => "Failed to parse code from Claude response"
  | InAddFeature => "Failed to parse feature addition response"
  end.

(** [JSON.parse] as the code calls it. *)
Definition parsed (o : option json) : outcome error json :=
  match o with
  | Some v => Ok v
  | None => Throw SyntaxError
  end.

(** [const jsonMatch = response.match(/\{[\s\S]*\}/);
     if (!jsonMatch) throw new Error (...);
     return JSON.parse (jsonMatch[0]);] *)
Definition extract (c : context) (response : string) : outcome error json :=
  match js_match brace_re response with
  | None => Throw (Error (parse_failure c))
  | Some m => parsed (JSON_parse m)
  end.






End Response.

(** ** The output writer as a sequence of primitive steps *)

Module Steps.
Import Text Eff Fs.

(** The two kinds of step [src/utils/file.ts] performs. *)
Inductive op :=
| OEnsure (d : string)                 (* [ensureDir d] *)
| OWrite (s : string) (c : string).    (* [fs.writeFileSync (s, c)] *)

Definition run_op (o : op) : IO unit :=
  match o with
  | OEnsure d => ensureDir d
  | OWrite s c => writeFileSync s c
  end.

Definition run_ops (l : list op) : IO unit := for_each l run_op.

Definition file_ops (outputDir : string) (file : CodeFile) : list op :=
  let filePath := path_join outputDir (cf_path file) in
  [OEnsure (path_dirname filePath); OWrite filePath (cf_content file)].

Definition setup_ops (code : GeneratedCode) (outputDir : string) : list op :=
  if negb (String.eqb (instructions code) "")
  then [OWrite (path_join outputDir "SETUP.md") (setup_header +:+ instructions code)]
  else [].

(** The steps of [saveOutput code outputDir], in order. *)
Definition ops_of (code : GeneratedCode) (outputDir : string) : list op :=
  OEnsure outputDir :: concat (map (file_ops outputDir) (files code)) ++ setup_ops code outputDir.

(** The writes among the steps: resolved path and content. *)
Fixpoint writes_of (l : list op) : list (path * string) :=
  match l with
  | [] => []
  | OEnsure _ :: l' => writes_of l'
  | OWrite s c :: l' => (resolve s, c) :: writes_of l'
  end.

(** The content the last write to [p] leaves, if [p] is written. *)
Fixpoint last_write (p : path) (ws : list (path * string)) : option string :=
  match ws with
  | [] => None
  | (q, c) :: ws' =>
      match last_write p ws' with
      | Some c' => Some c'
      | None => if decide (q = p) then Some c else None
      end
  end.

(** The path under [outputDir] a listed file is written to. *)
Definition target (outputDir : string) (file : CodeFile) : path :=
  resolve (path_join outputDir (cf_path file)).




(** The kinds of the nodes are kept: a directory stays one, a file
    stays a file. *)
Definition kinds_kept (s t : gmap path node) : Prop :=
  ∀ p, (stat s p = Some Dir → stat t p = Some Dir)
       ∧ (is_file (stat s p) = true → is_file (stat t p) = true).

End Steps.

(** ** The design specification *)

Module Design.
Import Json Eff Fs.

(** [interface Component]; [props] is a [Record<string, any>], here
    the members of a JSON object. *)
#[warnings="-register-all"]
Inductive Component := {
  c_type : string;
  c_name : string;
  c_props : list (string * json);
  c_children : option (list Component);
}.

(** [interface Section] *)
Record Section := {
  s_name : string;
  s_type : string;
  s_content : string;
  s_children : option (list Component);
}.

Record Layout := {
  l_type : string;
  l_sections : list Section;
}.

Record ColorScheme := {
  primary : string;
  secondary : string;
  accent : string;
  background : string;
  text : string;
}.

Record Typography := {
  headingFont : string;
  bodyFont : string;
}.

(** [interface DesignSpec] *)
Record DesignSpec := {
  name : string;
  description : string;
  layout : Layout;
  colorScheme : ColorScheme;
  typography : Typography;
  components : list Component;
}.

(** The value a typed object is at run time; an optional field that
    is absent has no member. *)
Definition optional_member (k : string) (o : option (list json)) : list (string * json) :=
  match o with
  | Some l => [(k, JArr l)]
  | None => []
  end.

Fixpoint component_to_js (c : Component) : json :=
  JObj ([("type", JStr (c_type c)); ("name", JStr (c_name c)); ("props", JObj (c_props c))]
        ++ optional_member "children"
             (match c_children c with
              | Some l => Some (map component_to_js l)
              | None => None
              end)).

Definition children_to_js (o : option (list Component)) : option (list json) :=
  match o with
  | Some l => Some (map component_to_js l)
  | None => None
  end.

Definition section_to_js (x : Section) : json :=
  JObj ([("name", JStr (s_name x)); ("type", JStr (s_type x)); ("content", JStr (s_content x))]
        ++ optional_member "children" (children_to_js (s_children x))).

Definition design_to_js (d : DesignSpec) : json :=
  JObj [ ("name", JStr (name d));
         ("description", JStr (description d));
         ("layout", JObj [ ("type", JStr (l_type (layout d)));
                           ("sections", JArr (map section_to_js (l_sections (layout d)))) ]);
         ("colorScheme", JObj [ ("primary", JStr (primary (colorScheme d)));
                                ("secondary", JStr (secondary (colorScheme d)));
                                ("accent", JStr (accent (colorScheme d)));
                                ("background", JStr (background (colorScheme d)));
                                ("text", JStr (text (colorScheme d))) ]);
         ("typography", JObj [ ("headingFont", JStr (headingFont (typography d)));
                               ("bodyFont", JStr (bodyFont (typography d))) ]);
         ("components", JArr (map component_to_js (components d))) ].








(** [JSON.parse (fs.readFileSync (file, 'utf-8'))], the reload of the
    [refine] action. *)
Definition load_for_refine (file : string) : IO json :=
  let! text := readFileSync file in
  λ s, (s, Response.parsed (JSON_parse text)).

(** [JSON.parse (await readFile (file))], the reload of the code
    [generate] action. *)
Definition load_for_generate (file : string) : IO json :=
  let! text := readFile file in
  λ s, (s, Response.parsed (JSON_parse text)).

(** The design of the scenario of the specification, with one section
    and one component. *)
Definition landing : DesignSpec :=
  {| name := "Landing";
     description := "d";
     layout := {| l_type := "single";
                  l_sections := [ {| s_name := "hero"; s_type := "banner";
                                     s_content := "Welcome"; s_children := None |} ] |};
     colorScheme := {| primary := "#000"; secondary := "#111"; accent := "#222";
                       background := "#fff"; text := "#000" |};
     typography := {| headingFont := "Inter"; bodyFont := "Inter" |};
     components := [ {| c_type := "button"; c_name := "cta";
                        c_props := [("label", JStr "Go"); ("size", JNum 2)];
                        c_children := Some [] |} ] |}.

End Design.

(** ** The world of the services *)

Module World.
Import Text Json Eff Fs.

(** A part of a request to the design model. *)
Inductive part :=
| PartText (t : string)
| PartInline (mimeType data : string).

(** What the program does to the outside, in order. *)
Inductive event :=
| EvExec (cmd : string)                          (* [child_process.exec] *)
| EvSpawn (cmd : string) (args : list string)    (* [child_process.spawn] *)
| EvGeminiSdk (parts : list part)                (* [model.generateContent] *)
| EvAnthropicSdk (prompt : string)               (* [client.messages.create] *)
| EvFetch (url token : string) (parts : list part)  (* [fetch] of the REST endpoint *)
| EvLog (line : string).                         (* the message of a failed command *)

(** The events that call the endpoint of a remote model. *)
Definition network_event (e : event) : bool :=
  match e with
  | EvGeminiSdk _ | EvAnthropicSdk _ | EvFetch _ _ _ => true
  | EvExec _ | EvSpawn _ _ | EvLog _ => false
  end.

Inductive exec_outcome :=
| ExecOk (stdout stderr : string)     (* the promise of [execAsync] resolves *)
| ExecFail (message : string).        (* it rejects: exit status, signal, timeout *)

(** How the promise of [runClaudeCodeInteractive] is settled: by the
    [close] event, the [error] event or the timer, whichever is first. *)
Inductive spawn_outcome :=
| SpawnClosed (code : option Z) (chunks : list string)
| SpawnFailed (message : string)
| SpawnTimedOut.

Inductive fetch_outcome :=
| FetchResponse (ok : bool) (body : string) (candidate : option string)
| FetchFailed (message : string).

(** The environment: variables, and the answers of the processes and
    endpoints the program calls. *)
Record env := {
  GEMINI_API_KEY : option string;
  ANTHROPIC_API_KEY : option string;
  GOOGLE_CLOUD_PROJECT : option string;
  exec_answer : string → exec_outcome;
  spawn_answer : string → list string → spawn_outcome;
  gemini_answer : list part → outcome error string;
  anthropic_answer : string → outcome error string;
  fetch_answer : string → string → list part → fetch_outcome;
  date_now : string;
  tmpdir : string;
  base64 : string → string;
}.

(** Truthiness of [process.env.X]. *)
Definition configured (v : option string) : bool :=
  match v with
  | Some s => negb (String.eqb s "")
  | None => false
  end.

Record world := {
  w_fs : gmap path node;
  w_trace : list event;
}.

Abbreviation Run := (M world error).

Definition in_fs {A} (m : IO A) : Run A :=
  zoom w_fs (λ fs w, {| w_fs := fs; w_trace := w_trace w |}) m.

Definition emit (e : event) : Run unit :=
  modify (λ w, {| w_fs := w_fs w; w_trace := w_trace w ++ [e] |}).

(** [await execAsync (cmd)] *)
Definition execAsync (E : env) (cmd : string) : Run (string * string) :=
  let! _ := emit (EvExec cmd) in
  match exec_answer E cmd with
  | ExecOk out err => ret (out, err)
  | ExecFail m => throw (Error m)
  end.

(** [String.prototype.trim], for the white space of a command's output. *)
Fixpoint trim_end (s : string) : string :=
  match s with
  | EmptyString => ""
  | String c s' =>
      match trim_end s' with
      | EmptyString => if js_space c then "" else chr c
      | t => String c t
      end
  end.

Fixpoint trim_start (s : string) : string :=
  match s with
  | String c s' => if js_space c then trim_start s' else s
  | EmptyString => ""
  end.

Definition trim (s : string) : string := trim_end (trim_start s).

Fixpoint ends_with (suffix s : string) : bool :=
  String.eqb s suffix
  || match s with
     | String _ s' => ends_with suffix s'
     | EmptyString => false
     end.

End World.

(** ** [src/services/gemini.ts] *)

Module Gemini.
Import Text Json Eff Fs World Response.

Definition lines (l : list string) : string := join nl l.

(** The constructor: an API key selects the SDK client, its absence
    the OAuth path. *)
Definition useOAuth (E : env) : bool := negb (configured (GEMINI_API_KEY E)).

Definition token_command : string := "gcloud auth application-default print-access-token".

Definition oauth_not_configured : string :=
  lines [ "Google OAuth not configured. Run: gcloud auth application-default login";
          "Or set GEMINI_API_KEY environment variable." ].

Definition getAccessToken (E : env) : Run string :=
  try_catch
    (let! r := execAsync E token_command in ret (trim r.1))
    (λ _, throw (Error oauth_not_configured)).

Definition getProjectId (E : env) : Run string :=
  try_catch
    (let! r := execAsync E "gcloud config get-value project" in ret (trim r.1))
    (λ _, throw (Error "Could not determine Google Cloud project. Set GOOGLE_CLOUD_PROJECT env var.")).

Definition endpoint (projectId : string) : string :=
  "https://us-central1-aiplatform.googleapis.com/v1/projects/" +:+ projectId
  +:+ "/locations/us-central1/publishers/google/models/gemini-2.0-flash:generateContent".

(** [process.env.GOOGLE_CLOUD_PROJECT || await this.getProjectId ()] *)
Definition projectId (E : env) : Run string :=
  match GOOGLE_CLOUD_PROJECT E with
  | Some p => if String.eqb p "" then getProjectId E else ret p
  | None => getProjectId E
  end.

Definition sdk_generate (E : env) (parts : list part) : Run string :=
  let! _ := emit (EvGeminiSdk parts) in
  λ w, (w, gemini_answer E parts).

Definition fetch (E : env) (url token : string) (parts : list part) : Run fetch_outcome :=
  let! _ := emit (EvFetch url token parts) in
  ret (fetch_answer E url token parts).

(** [data.candidates[0].content.parts[0].text] *)
Definition candidate_text (candidate : option string) : Run string :=
  match candidate with
  | Some t => ret t
  | None => throw (Error "Cannot read properties of undefined (reading '0')")
  end.

Definition callGeminiAPI (E : env) (prompt : string) : Run string :=
  if negb (useOAuth E) then sdk_generate E [PartText prompt]
  else
    let! accessToken := getAccessToken E in
    let! project := projectId E in
    let! response := fetch E (endpoint project) accessToken [PartText prompt] in
    match response with
    | FetchFailed m => throw (Error m)
    | FetchResponse ok body candidate =>
        if negb ok then throw (Error ("Gemini API error: " +:+ body))
        else candidate_text candidate
    end.

Definition design_prompt (prompt : string) : string :=
  lines [ "You are an expert UI/UX designer. Generate a detailed design specification in JSON format.";
          "";
          "The design spec should include:";
          "1. name: Project name";
          "2. description: Brief description";
          "3. layout: Overall layout structure with sections";
          "4. colorScheme: Color palette (primary, secondary, accent, background, text)";
          "5. typography: Font choices";
          "6. components: List of UI components with their properties";
          "";
          "Respond ONLY with valid JSON, no markdown or explanation.";
          "";
          "Create a design specification for: " +:+ prompt ].

Definition extracted (c : context) (response : string) : Run json :=
  λ w, (w, extract c response).

Definition generateDesign (E : env) (prompt : string) : Run json :=
  let! response := callGeminiAPI E (design_prompt prompt) in
  extracted InGenerateDesign response.

Definition image_prompt : string :=
  lines [ "Analyze this UI design image and extract a detailed design specification in JSON format.";
          "";
          "Include:";
          "1. name: Suggested project name";
          "2. description: What this UI appears to be";
          "3. layout: Structure and sections identified";
          "4. colorScheme: Colors used (provide hex values)";
          "5. typography: Font styles observed";
          "6. components: All UI components identified with their properties";
          "";
          "Respond ONLY with valid JSON." ].

Definition image_prompt_oauth : string :=
  "Analyze this UI design image and extract a detailed design specification in JSON format. Include name, description, layout, colorScheme, typography, components. Respond ONLY with valid JSON.".

Definition analyzeImage (E : env) (imagePath : string) : Run json :=
  let! imageData := in_fs (readFileSync imagePath) in
  let base64Image := base64 E imageData in
  let mimeType := if ends_with ".png" imagePath then "image/png" else "image/jpeg" in
  if negb (useOAuth E) then
    let! response :=
      sdk_generate E [PartText image_prompt; PartInline mimeType base64Image] in
    extracted InAnalyzeImage response
  else
    let! accessToken := getAccessToken E in
    let! project := projectId E in
    let! response :=
      fetch E (endpoint project) accessToken
        [PartText image_prompt_oauth; PartInline mimeType base64Image] in
    match response with
    | FetchFailed m => throw (Error m)
    | FetchResponse _ _ candidate =>
        let! text := candidate_text candidate in
        extracted InAnalyzeImage text
    end.

Definition refine_prompt (design : json) (feedback : string) : string :=
  lines [ "Current design specification:";
          JSON_stringify design;
          "";
          "User feedback: " +:+ feedback;
          "";
          "Update the design specification based on the feedback. Respond ONLY with the updated JSON." ].

Definition refineDesign (E : env) (design : json) (feedback : string) : Run json :=
  let! response := callGeminiAPI E (refine_prompt design feedback) in
  extracted InRefineDesign response.

(** [checkAuth]: the method and the status. *)
Definition checkAuth (E : env) : Run (string * string) :=
  if negb (useOAuth E) then ret ("API Key", "configured")
  else
    try_catch
      (let! _ := getAccessToken E in ret ("Google OAuth", "authenticated"))
      (λ _, ret ("Google OAuth", "not authenticated")).

End Gemini.

(** ** [src/services/claude.ts] *)

Module Claude.
Import Text Json Eff Fs World Response.

Definition lines (l : list string) : string := join nl l.

Definition useClaudeCode (E : env) : bool := negb (configured (ANTHROPIC_API_KEY E)).

Definition promptFile (E : env) : string :=
  path_join (tmpdir E) ("d2c-prompt-" +:+ date_now E +:+ ".txt").

(** [`claude --print "${prompt.substring(0, 500)}..." < "${promptFile}"`] *)
Definition print_command (E : env) (prompt : string) : string :=
  "claude --print " +:+ dq +:+ String.substring 0 500 prompt +:+ "..." +:+ dq
  +:+ " < " +:+ dq +:+ promptFile E +:+ dq.

Definition show_code (code : option Z) : string :=
  match code with
  | Some n => Z_to_string n
  | None => "null"
  end.

Definition runClaudeCodeInteractive (E : env) (prompt : string) : Run string :=
  let! _ := emit (EvSpawn "claude" ["-p"; prompt]) in
  match spawn_answer E "claude" ["-p"; prompt] with
  | SpawnClosed code chunks =>
      if bool_decide (code = Some 0%Z) || negb (bool_decide (chunks = []))
      then ret (join "" chunks)
      else throw (Error ("Claude Code exited with code " +:+ show_code code))
  | SpawnFailed m => throw (Error m)
  | SpawnTimedOut => throw (Error "Claude Code timeout")
  end.

Definition cli_not_available (original : string) : string :=
  lines [ "Claude Code CLI not available or not logged in.";
          "Run: claude login";
          "Or set ANTHROPIC_API_KEY environment variable.";
          "Original error: " +:+ original ].

Definition callClaudeCode (E : env) (prompt : string) : Run string :=
  let! _ := in_fs (writeFileSync (promptFile E) prompt) in
  try_catch
    (let! r := execAsync E (print_command E prompt) in
     let! _ := in_fs (unlinkSync (promptFile E)) in
     if negb (String.eqb r.2 "") && String.eqb r.1 "" then throw (Error r.2)
     else ret r.1)
    (λ error,
       try_catch
         (let! result := runClaudeCodeInteractive E prompt in
          let! _ := in_fs (unlinkSync (promptFile E)) in
          ret result)
         (λ _,
            let! _ := in_fs (unlinkSync (promptFile E)) in
            throw (Error (cli_not_available (message error))))).

Definition callAPI (E : env) (prompt : string) : Run string :=
  if useClaudeCode E then callClaudeCode E prompt
  else
    let! _ := emit (EvAnthropicSdk prompt) in
    λ w, (w, anthropic_answer E prompt).

(** *** The framework instructions *)

Definition nextjs_block : string :=
  lines [ "";
          "- Use Next.js App Router (app directory)";
          "- Create page.tsx for pages";
          "- Use 'use client' directive where needed";
          "- Implement proper metadata exports" ].

Definition react_block : string :=
  lines [ "";
          "- Use functional components with hooks";
          "- Create a proper component structure";
          "- Use React.FC for component typing" ].

Definition vue_block : string :=
  lines [ "";
          "- Use Vue 3 Composition API";
          "- Use <script setup lang=" +:+ dq +:+ "ts" +:+ dq +:+ ">";
          "- Create .vue single file components" ].

(** The own properties of the object literal [instructions]. *)
Definition instructions_table : list (string * string) :=
  [("nextjs", nextjs_block); ("react", react_block); ("vue", vue_block)].

(** What reading a property of an object literal gives: the literal
    inherits from [Object.prototype]. *)
Inductive property :=
| PString (s : string)
| PFunction (name : string)
| PObjectPrototype
| PUndefined.

(** The function-valued properties of [Object.prototype], with the
    names of the functions. *)
Definition object_prototype_functions : list (string * string) :=
  [ ("constructor", "Object");
    ("__defineGetter__", "__defineGetter__");
    ("__defineSetter__", "__defineSetter__");
    ("hasOwnProperty", "hasOwnProperty");
    ("__lookupGetter__", "__lookupGetter__");
    ("__lookupSetter__", "__lookupSetter__");
    ("isPrototypeOf", "isPrototypeOf");
    ("propertyIsEnumerable", "propertyIsEnumerable");
    ("toString", "toString");
    ("valueOf", "valueOf");
    ("toLocaleString", "toLocaleString") ].

Fixpoint assoc {A} (k : string) (l : list (string * A)) : option A :=
  match l with
  | [] => None
  | (k', v) :: l' => if String.eqb k' k then Some v else assoc k l'
  end.

(** [instructions[key]] *)
Definition get_property (own : list (string * string)) (key : string) : property :=
  match assoc key own with
  | Some s => PString s
  | None =>
      match assoc key object_prototype_functions with
      | Some name => PFunction name
      | None => if String.eqb key "__proto__" then PObjectPrototype else PUndefined
      end
  end.

Definition truthy (p : property) : bool :=
  match p with
  | PString s => negb (String.eqb s "")
  | PFunction _ | PObjectPrototype => true
  | PUndefined => false
  end.

(** [a || b] *)
Definition or_else (a b : property) : property := if truthy a then a else b.

(** The text a value takes inside a template literal. *)
Definition to_text (p : property) : string :=
  match p with
  | PString s => s
  | PFunction name => "function " +:+ name +:+ "() { [native code] }"
  | PObjectPrototype => "[object Object]"
  | PUndefined => "undefined"
  end.

(** [return instructions[framework] || instructions.react;] *)
Definition getFrameworkInstructions (framework : string) : property :=
  or_else (get_property instructions_table framework)
          (get_property instructions_table "react").

Definition code_prompt_head : string :=
  lines [ "You are an expert frontend developer. Generate production-ready code based on this design specification:";
          "" ].

Definition code_prompt_tail : string :=
  lines [ "";
          "Requirements:";
          "1. Use TypeScript";
          "2. Use Tailwind CSS for styling";
          "3. Create reusable components";
          "4. Follow best practices for the chosen framework";
          "5. Include proper types/interfaces";
          "";
          "Respond in this JSON format:";
          "{";
          "  " +:+ dq +:+ "files" +:+ dq +:+ ": [";
          "    {";
          "      " +:+ dq +:+ "path" +:+ dq +:+ ": " +:+ dq +:+ "relative/path/to/file.tsx" +:+ dq +:+ ",";
          "      " +:+ dq +:+ "content" +:+ dq +:+ ": " +:+ dq +:+ "file content here" +:+ dq +:+ ",";
          "      " +:+ dq +:+ "language" +:+ dq +:+ ": " +:+ dq +:+ "typescript" +:+ dq;
          "    }";
          "  ],";
          "  " +:+ dq +:+ "instructions" +:+ dq +:+ ": " +:+ dq +:+ "Setup and usage instructions" +:+ dq;
          "}";
          "";
          "Generate complete, working code. Respond ONLY with valid JSON." ].

(** The prompt of [generateCode] around a given text of instructions. *)
Definition code_prompt_with (design : json) (framework instructions : string) : string :=
  lines [ code_prompt_head;
          JSON_stringify design;
          "";
          "Framework: " +:+ framework;
          instructions;
          code_prompt_tail ].

Definition code_prompt (design : json) (framework : string) : string :=
  code_prompt_with design framework (to_text (getFrameworkInstructions framework)).

Definition extracted (c : context) (response : string) : Run json :=
  λ w, (w, extract c response).

Definition generateCode (E : env) (design : json) (framework : string) : Run json :=
  let! responseText := callAPI E (code_prompt design framework) in
  extracted InGenerateCode responseText.

Definition fence : string := "```".

Definition refactor_prompt (code instructions : string) : string :=
  lines [ "Refactor this code based on the following instructions:";
          "";
          "Instructions: " +:+ instructions;
          "";
          "Code:";
          fence;
          code;
          fence;
          "";
          "Respond with ONLY the refactored code, no explanations." ].

Definition refactorCode (E : env) (code instructions : string) : Run string :=
  callAPI E (refactor_prompt code instructions).

Definition feature_prompt (code feature framework : string) : string :=
  lines [ "Add the following feature to this " +:+ framework +:+ " code:";
          "";
          "Feature: " +:+ feature;
          "";
          "Current code:";
          fence;
          code;
          fence;
          "";
          "Respond in JSON format:";
          "{";
          "  " +:+ dq +:+ "files" +:+ dq +:+ ": [";
          "    {";
          "      " +:+ dq +:+ "path" +:+ dq +:+ ": " +:+ dq +:+ "relative/path/to/file.tsx" +:+ dq +:+ ",";
          "      " +:+ dq +:+ "content" +:+ dq +:+ ": " +:+ dq +:+ "updated file content" +:+ dq +:+ ",";
          "      " +:+ dq +:+ "language" +:+ dq +:+ ": " +:+ dq +:+ "typescript" +:+ dq;
          "    }";
          "  ],";
          "  " +:+ dq +:+ "instructions" +:+ dq +:+ ": " +:+ dq +:+ "What was added and how to use it" +:+ dq;
          "}";
          "";
          "Respond ONLY with valid JSON." ].

Definition addFeature (E : env) (code feature framework : string) : Run json :=
  let! responseText := callAPI E (feature_prompt code feature framework) in
  extracted InAddFeature responseText.

(** [checkAuth]: the method and the status. *)
Definition checkAuth (E : env) : Run (string * string) :=
  if negb (useClaudeCode E) then ret ("API Key", "configured")
  else
    try_catch
      (let! _ := execAsync E "claude --version" in ret ("Claude Code CLI", "available"))
      (λ _, ret ("Claude Code CLI", "not available")).

(** The keys an object literal inherits from [Object.prototype]. *)
Definition inherited (key : string) : bool :=
  match assoc key object_prototype_functions with
  | Some _ => true
  | None => String.eqb key "__proto__"
  end.

(** The table in the words of the specification: the entry of the
    key, or the default entry. *)
Definition block_for (framework : string) : string :=
  if String.eqb framework "nextjs" then nextjs_block
  else if String.eqb framework "vue" then vue_block
  else react_block.

(** [contains needle s]: [needle] occurs in [s] as a substring. *)
Fixpoint contains (needle s : string) : bool :=
  String.prefix needle s
  || match s with
     | String _ s' => contains needle s'
     | EmptyString => false
     end.

End Claude.

(** ** The commands: [src/index.ts], [src/commands/design.ts],
    [src/commands/code.ts] *)

Module Cli.
Import Text Json Eff Fs World Response.

(** The value of a response read as the interface [GeneratedCode]:
    a [files] array of objects with string fields, and an
    [instructions] string (absent: the empty string).  For a value
    of another shape [saveOutput] fails with a TypeError on the way;
    here it is taken to fail once the output directory is ensured. *)
Definition field_string (k : string) (o : list (string * json)) : option string :=
  match Claude.assoc k o with
  | Some (JStr s) => Some s
  | _ => None
  end.

Definition as_code_file (v : json) : option CodeFile :=
  match v with
  | JObj o =>
      match field_string "path" o, field_string "content" o with
      | Some p, Some c =>
          Some {| cf_path := p; cf_content := c;
                  cf_language := default "" (field_string "language" o) |}
      | _, _ => None
      end
  | _ => None
  end.

Fixpoint all_some {A} (l : list (option A)) : option (list A) :=
  match l with
  | [] => Some []
  | Some x :: l' => match all_some l' with Some xs => Some (x :: xs) | None => None end
  | None :: _ => None
  end.

Definition as_generated_code (v : json) : option GeneratedCode :=
  match v with
  | JObj o =>
      match Claude.assoc "files" o with
      | Some (JArr fl) =>
          match all_some (map as_code_file fl), Claude.assoc "instructions" o with
          | Some fs, Some (JStr i) => Some {| files := fs; instructions := i |}
          | Some fs, None => Some {| files := fs; instructions := "" |}
          | _, _ => None
          end
      | _ => None
      end
  | _ => None
  end.

Definition saveOutput_value (v : json) (outputDir : string) : Run unit :=
  match as_generated_code v with
  | Some code => in_fs (saveOutput code outputDir)
  | None =>
      let! _ := in_fs (ensureDir outputDir) in
      throw (Error "TypeError: the response has not the shape of GeneratedCode")
  end.

(** [process.exit] status of a command. *)
Definition status := Z.

Definition log (line : string) (w : world) : world :=
  {| w_fs := w_fs w; w_trace := w_trace w ++ [EvLog line] |}.

(** [try { body } catch (error) { report (error.message); process.exit (1) }] *)
Definition command (report : string → string) (body : Run unit) (w : world) : world * status :=
  match body w with
  | (w', Ok _) => (w', 0%Z)
  | (w', Throw e) => (log (report (message e)) w', 1%Z)
  end.

Definition missing (o : option string) : bool := negb (configured o).

Record design_options := {
  do_output : string;                (* [-o], default [./design-spec.json] *)
  do_design : option string;         (* [-d] *)
}.

Definition spinner_error (m : string) : string := "Error: " +:+ m.

(** [designCommand] *)
Definition designCommand (E : env) (action : string) (input : option string)
    (options : design_options) (w : world) : world * status :=
  let run (m : Run json) :=
    command spinner_error
      (let! result := m in in_fs (saveJson result (do_output options))) w in
  if String.eqb action "generate" then
    if missing input then (log "Prompt is required for generate action" w, 1%Z)
    else run (Gemini.generateDesign E (default "" input))
  else if String.eqb action "analyze" then
    if missing input then (log "Image path is required for analyze action" w, 1%Z)
    else run (Gemini.analyzeImage E (default "" input))
  else if String.eqb action "refine" then
    if missing input || missing (do_design options)
    then (log "Feedback and --design file are required for refine action" w, 1%Z)
    else run (let! existingDesign :=
                in_fs (Design.load_for_refine (default "" (do_design options))) in
              Gemini.refineDesign E existingDesign (default "" input))
  else (log ("Unknown action: " +:+ action +:+ ". Use: generate, analyze, refine") w, 1%Z).

Record code_options := {
  co_design : option string;
  co_code : option string;
  co_instructions : option string;
  co_feature : option string;
  co_output : string;                (* default [./output] *)
  co_framework : string;             (* default [nextjs] *)
}.

(** [codeCommand] *)
Definition codeCommand (E : env) (action : string) (options : code_options) (w : world)
  : world * status :=
  if String.eqb action "generate" then
    if missing (co_design options)
    then (log "--design file is required for generate action" w, 1%Z)
    else
      command spinner_error
        (let! design := in_fs (Design.load_for_generate (default "" (co_design options))) in
         let! generated := Claude.generateCode E design (co_framework options) in
         saveOutput_value generated (co_output options)) w
  else if String.eqb action "refactor" then
    if missing (co_code options) || missing (co_instructions options)
    then (log "--code and --instructions are required for refactor action" w, 1%Z)
    else
      command spinner_error
        (let! codeContent := in_fs (readFile (default "" (co_code options))) in
         let! refactored :=
           Claude.refactorCode E codeContent (default "" (co_instructions options)) in
         in_fs (writeFileSync (default "" (co_code options)) refactored)) w
  else if String.eqb action "add-feature" then
    if missing (co_code options) || missing (co_feature options)
    then (log "--code and --feature are required for add-feature action" w, 1%Z)
    else
      command spinner_error
        (let! existingCode := in_fs (readFile (default "" (co_code options))) in
         let! updated :=
           Claude.addFeature E existingCode (default "" (co_feature options))
             (co_framework options) in
         saveOutput_value updated (co_output options)) w
  else (log ("Unknown action: " +:+ action +:+ ". Use: generate, refactor, add-feature") w, 1%Z).




(** The world after more events, and with another file system. *)
Definition after (w : world) (evs : list event) : world :=
  {| w_fs := w_fs w; w_trace := w_trace w ++ evs |}.

Definition on_fs (fs : gmap path node) (w : world) : world :=
  {| w_fs := fs; w_trace := w_trace w |}.

(** No event of the list calls the endpoint of a remote model. *)
Definition offline (evs : list event) : bool := forallb (λ e, negb (network_event e)) evs.

(** The secondary invocation of the agent rejects. *)
Definition spawn_rejects (o : spawn_outcome) : bool :=
  match o with
  | SpawnClosed code chunks =>
      negb (bool_decide (code = Some 0%Z) || negb (bool_decide (chunks = [])))
  | SpawnFailed _ | SpawnTimedOut => true
  end.

(** The standard output the secondary invocation collected. *)
Definition spawn_output (o : spawn_outcome) : string :=
  match o with
  | SpawnClosed _ chunks => join "" chunks
  | SpawnFailed _ | SpawnTimedOut => ""
  end.

(** The world [callClaudeCode] leaves: the prompt file is gone and the
    events are recorded. *)
Definition left_by (E : env) (w : world) (evs : list event) : world :=
  after (on_fs (delete (resolve (Claude.promptFile E)) (w_fs w)) w) evs.

(** The error the secondary invocation rejects with. *)
Definition spawn_error (o : spawn_outcome) : string :=
  match o with
  | SpawnClosed code _ => "Claude Code exited with code " +:+ Claude.show_code code
  | SpawnFailed m => m
  | SpawnTimedOut => "Claude Code timeout"
  end.


(** The temporary file of the prompt can be written: its directory
    exists and no directory stands in its place. *)
Definition tmp_writable (E : env) (w : world) : Prop :=
  stat (w_fs w) (resolve (Claude.promptFile E)) ≠ Some Dir
  ∧ stat (w_fs w) (parent (resolve (Claude.promptFile E))) = Some Dir.

(** *** Sample environments *)

(** No key, no [gcloud], no [claude]. *)
Definition bare_env : env :=
  {| GEMINI_API_KEY := None;
     ANTHROPIC_API_KEY := None;
     GOOGLE_CLOUD_PROJECT := None;
     exec_answer := λ cmd, ExecFail ("Command failed: " +:+ cmd);
     spawn_answer := λ _ _, SpawnClosed (Some 127%Z) [];
     gemini_answer := λ _, Throw (Error "no client");
     anthropic_answer := λ _, Throw (Error "no client");
     fetch_answer := λ _ _ _, FetchFailed "fetch failed";
     date_now := "1700000000000";
     tmpdir := "/tmp";
     base64 := λ s, s |}.

(** No key; the agent is installed, prints a warning on standard error
    and nothing on standard output when given the prompt on standard
    input, and answers [{}] when given the prompt as an argument. *)
Definition warning_env : env :=
  {| GEMINI_API_KEY := None;
     ANTHROPIC_API_KEY := None;
     GOOGLE_CLOUD_PROJECT := None;
     exec_answer := λ _, ExecOk "" "warning: a new version is available";
     spawn_answer := λ _ _, SpawnClosed (Some 0%Z) ["{}"];
     gemini_answer := λ _, Throw (Error "no client");
     anthropic_answer := λ _, Throw (Error "no client");
     fetch_answer := λ _ _ _, FetchFailed "fetch failed";
     date_now := "1700000000000";
     tmpdir := "/tmp";
     base64 := λ s, s |}.

(** The same agent, failing on the second invocation too. *)
Definition warning_then_failure_env : env :=
  {| GEMINI_API_KEY := None;
     ANTHROPIC_API_KEY := None;
     GOOGLE_CLOUD_PROJECT := None;
     exec_answer := λ _, ExecOk "" "warning: a new version is available";
     spawn_answer := λ _ _, SpawnClosed (Some 1%Z) [];
     gemini_answer := λ _, Throw (Error "no client");
     anthropic_answer := λ _, Throw (Error "no client");
     fetch_answer := λ _ _ _, FetchFailed "fetch failed";
     date_now := "1700000000000";
     tmpdir := "/tmp";
     base64 := λ s, s |}.

(** A world with a temporary directory and nothing else. *)
Definition tmp_world : world :=
  {| w_fs := {[ ["tmp"] := Dir ]}; w_trace := [] |}.

End Cli.

(** ** What a run leaves behind *)

Module Effects.
Import Text Json Eff Fs World Response.

(** The two file systems hold the same files with the same contents. *)
Definition same_files (s t : gmap path node) : Prop :=
  ∀ p c, s !! p = Some (File c) ↔ t !! p = Some (File c).

(** The same, the path [q] apart. *)
Definition same_files_but (q : path) (s t : gmap path node) : Prop :=
  ∀ p c, p ≠ q → s !! p = Some (File c) ↔ t !! p = Some (File c).

(** The directories of [s] are directories of [t]. *)
Definition directories_kept (s t : gmap path node) : Prop :=
  ∀ p, stat s p = Some Dir → stat t p = Some Dir.

(** The answer of a model, and the extraction when there is one. *)
Definition then_extract (c : context) (r : outcome error string) : outcome error json :=
  match r with
  | Ok response => extract c response
  | Throw e => Throw e
  end.

(** [gcloud config get-value project] and the error of its failure. *)
Definition project_command : string := "gcloud config get-value project".

Definition project_unknown : string :=
  "Could not determine Google Cloud project. Set GOOGLE_CLOUD_PROJECT env var.".

(** The text of the first candidate of a response body. *)
Definition candidate_outcome (candidate : option string) : outcome error string :=
  match candidate with
  | Some t => Ok t
  | None => Throw (Error "Cannot read properties of undefined (reading '0')")
  end.

(** What [callGeminiAPI] makes of the answer of the endpoint. *)
Definition reply (r : fetch_outcome) : outcome error string :=
  match r with
  | FetchFailed m => Throw (Error m)
  | FetchResponse ok body candidate =>
      if ok then candidate_outcome candidate
      else Throw (Error ("Gemini API error: " +:+ body))
  end.

Definition exec_succeeds (o : exec_outcome) : bool :=
  match o with
  | ExecOk _ _ => true
  | ExecFail _ => false
  end.

(** No key; [gcloud] is logged in and knows the project, and the
    endpoint answers with an object in a sentence. *)
Definition gcloud_env : env :=
  {| GEMINI_API_KEY := None;
     ANTHROPIC_API_KEY := None;
     GOOGLE_CLOUD_PROJECT := None;
     exec_answer := λ cmd,
       if String.eqb cmd Gemini.token_command then ExecOk ("ya29.token" +:+ nl) ""
       else if String.eqb cmd project_command then ExecOk ("my-project" +:+ nl) ""
       else ExecFail ("Command failed: " +:+ cmd);
     spawn_answer := λ _ _, SpawnClosed (Some 127%Z) [];
     gemini_answer := λ _, Throw (Error "no client");
     anthropic_answer := λ _, Throw (Error "no client");
     fetch_answer := λ _ _ _, FetchResponse true "" (Some "Here: {} done");
     date_now := "1700000000000";
     tmpdir := "/tmp";
     base64 := λ s, s |}.

(** An answer of the code model: one file and the instructions. *)
Definition code_response : string :=
  "Here: {" +:+ dq +:+ "files" +:+ dq +:+ ": [{"
  +:+ dq +:+ "path" +:+ dq +:+ ": " +:+ dq +:+ "page.tsx" +:+ dq +:+ ", "
  +:+ dq +:+ "content" +:+ dq +:+ ": " +:+ dq +:+ "x" +:+ dq +:+ "}], "
  +:+ dq +:+ "instructions" +:+ dq +:+ ": " +:+ dq +:+ "npm install" +:+ dq +:+ "} done".



(** Both keys are set; the models answer with an object in a sentence. *)
Definition keys_env : env :=
  {| GEMINI_API_KEY := Some "g-key";
     ANTHROPIC_API_KEY := Some "a-key";
     GOOGLE_CLOUD_PROJECT := None;
     exec_answer := λ cmd, ExecFail ("Command failed: " +:+ cmd);
     spawn_answer := λ _ _, SpawnClosed (Some 127%Z) [];
     gemini_answer := λ _, Ok "Here: {} done";
     anthropic_answer := λ _, Ok code_response;
     fetch_answer := λ _ _ _, FetchFailed "fetch failed";
     date_now := "1700000000000";
     tmpdir := "/tmp";
     base64 := λ s, s |}.

(** No key; the agent answers on standard output and reports its
    progress on standard error. *)
Definition agent_env : env :=
  {| GEMINI_API_KEY := None;
     ANTHROPIC_API_KEY := None;
     GOOGLE_CLOUD_PROJECT := None;
     exec_answer := λ _, ExecOk "Here: {} done" "thinking";
     spawn_answer := λ _ _, SpawnClosed (Some 0%Z) [];
     gemini_answer := λ _, Throw (Error "no client");
     anthropic_answer := λ _, Throw (Error "no client");
     fetch_answer := λ _ _ _, FetchFailed "fetch failed";
     date_now := "1700000000000";
     tmpdir := "/tmp";
     base64 := λ s, s |}.

(** No key; the agent fails when given the prompt on standard input,
    and exits with status 1 after printing an answer when given the
    prompt as an argument. *)
Definition late_agent_env : env :=
  {| GEMINI_API_KEY := None;
     ANTHROPIC_API_KEY := None;
     GOOGLE_CLOUD_PROJECT := None;
     exec_answer := λ cmd, ExecFail ("Command failed: " +:+ cmd);
     spawn_answer := λ _ _, SpawnClosed (Some 1%Z) ["Here: {"; "} done"];
     gemini_answer := λ _, Throw (Error "no client");
     anthropic_answer := λ _, Throw (Error "no client");
     fetch_answer := λ _ _ _, FetchFailed "fetch failed";
     date_now := "1700000000000";
     tmpdir := "/tmp";
     base64 := λ s, s |}.

(** A world with a code file. *)
Definition code_world : world :=
  {| w_fs := {[ ["tmp"] := Dir; ["a.ts"] := File "let x = 1" ]}; w_trace := [] |}.


(** A world with a picture and a temporary directory. *)
Definition picture_world : world :=
  {| w_fs := {[ ["tmp"] := Dir; ["shot.png"] := File "PNG" ]}; w_trace := [] |}.

End Effects.

(** ** JavaScript on the values of [JSON.parse]

    What the commands read is what [JSON.parse] gave, whatever its
    shape, so the reads, writes and conversions of the code are those
    of JavaScript on any such value.  The code of a module is
    strict. *)

Module Js.
Import Text Json Eff Fs World.

(** A TypeError, by its message. *)
Definition type_error (m : string) : error := Error m.

Definition cannot_convert : error := type_error "Cannot convert object to primitive value".

(** ToString; [None] is the TypeError of an object that cannot be
    converted, one with a [toString] member of its own. *)
Fixpoint to_string (v : json) : option string :=
  match v with
  | JNull => Some "null"
  | JBool b => Some (if b then "true" else "false")
  | JNum n => Some (Z_to_string n)
  | JInf negative => Some (if negative then "-Infinity" else "Infinity")
  | JStr s => Some s
  | JArr l =>
      join "," <$>
        Cli.all_some (map (λ x, match x with JNull => Some "" | _ => to_string x end) l)
  | JObj o =>
      match Claude.assoc "toString" o with
      | Some _ => None
      | None => Some "[object Object]"
      end
  end.

Definition type_name (v : json) : string :=
  match v with
  | JBool _ => "boolean"
  | JNum _ | JInf _ => "number"
  | JStr _ => "string"
  | JNull | JArr _ | JObj _ => "object"
  end.

(** [x[k] = v], for a key that is no index: an object takes the
    property; an array takes it too, but [JSON.stringify] passes over
    it; [null] and the primitive values throw. *)
Definition set_member (k : string) (v : json) (x : json) : outcome error json :=
  match x with
  | JObj o => Ok (JObj (obj_set k v o))
  | JArr l => Ok (JArr l)
  | JNull => Throw (type_error ("Cannot set properties of null (setting '" +:+ k +:+ "')"))
  | _ =>
      Throw (type_error ("Cannot create property '" +:+ k +:+ "' on " +:+ type_name x
                         +:+ " '" +:+ default "" (to_string x) +:+ "'"))
  end.

(** [x[k]], for a key that no prototype defines: [None] is
    [undefined]. *)
Definition get_member (k : string) (x : json) : outcome error (option json) :=
  match x with
  | JObj o => Ok (Claude.assoc k o)
  | JNull => Throw (type_error ("Cannot read properties of null (reading '" +:+ k +:+ "')"))
  | _ => Ok None
  end.

(** A step that only computes. *)
Definition lift {A} (r : outcome error A) : Run A := λ w, (w, r).

(** ToBoolean *)
Definition to_boolean (v : option json) : bool :=
  match v with
  | None | Some JNull => false
  | Some (JBool b) => b
  | Some (JNum n) => negb (n =? 0)%Z
  | Some (JStr s) => negb (String.eqb s "")
  | Some (JInf _) | Some (JArr _) | Some (JObj _) => true
  end.

End Js.

(** ** [src/commands/config.ts] *)

Module Config.
Import Text Json Eff Fs World Response Js.

(** [path.join (os.homedir (), '.design-to-code.json')] *)
Definition CONFIG_PATH (home : string) : string := path_join home ".design-to-code.json".

(** [loadConfig]: the parsed file, whatever it holds, or the empty
    object when there is no file or reading or parsing it throws. *)
Definition loadConfig (home : string) : IO json :=
  try_catch
    (let! ex := existsSync (CONFIG_PATH home) in
     if ex then
       let! text := readFileSync (CONFIG_PATH home) in
       λ s, (s, parsed (JSON_parse text))
     else ret (JObj []))
    (λ _, ret (JObj [])).

Definition saveConfig (home : string) (config : json) : IO unit :=
  writeFileSync (CONFIG_PATH home) (JSON_stringify config).

(** The last [n] characters of a string (of an ASCII string: the
    model counts bytes). *)
Definition last_chars (n : nat) (s : string) : string :=
  String.substring (String.length s - n) n s.

(** [v.slice (-4)]: of a string, of an array; anything else has no
    such method. *)
Definition slice_4 (v : json) : option json :=
  match v with
  | JStr s => Some (JStr (last_chars 4 s))
  | JArr l => Some (JArr (drop (length l - 4) l))
  | _ => None
  end.

(** [config[k] ? '***' + config[k].slice (-4) : 'Not set'], [v] being
    [config[k]] *)
Definition masked (k : string) (v : option json) : outcome error string :=
  match v with
  | Some x =>
      if to_boolean v then
        match slice_4 x with
        | Some y =>
            match to_string y with
            | Some t => Ok ("***" +:+ t)
            | None => Throw cannot_convert
            end
        | None => Throw (type_error ("config." +:+ k +:+ ".slice is not a function"))
        end
      else Ok "Not set"
  | None => Ok "Not set"
  end.

(** [`${v || d}`] *)
Definition or_default (v : option json) (d : string) : outcome error string :=
  match v with
  | Some x =>
      if to_boolean v then
        match to_string x with
        | Some t => Ok t
        | None => Throw cannot_convert
        end
      else Ok d
  | None => Ok d
  end.

(** *** The command

    The lines of [console.log] are recorded as [EvLog] events, without
    their colours. *)

Record config_options := {
  cfg_gemini : option string;        (* [--gemini] *)
  cfg_anthropic : option string;     (* [--anthropic] *)
  cfg_framework : option string;     (* [--framework] *)
  cfg_output : option string;        (* [--output] *)
}.

(** What the prompts of [init] return. *)
Record answers := {
  a_geminiApiKey : string;
  a_anthropicApiKey : string;
  a_defaultFramework : string;
  a_defaultOutputDir : string;
}.

Definition console_log (line : string) : Run unit := emit (EvLog line).

(** [config.k = v; saveConfig (config); console.log (line); return;] *)
Definition save_setting (home : string) (config : json) (k v line : string) : Run unit :=
  let! config := lift (set_member k (JStr v) config) in
  let! _ := in_fs (saveConfig home config) in
  console_log line.

Definition set_or_not (v : option string) : string :=
  if configured v then "Set" else "Not set".

Definition show (home : string) (E : env) (config : json) : Run unit :=
  let! _ := console_log (nl +:+ "⚙️  Current Configuration:" +:+ nl) in
  let! _ := console_log ("   Config file: " +:+ CONFIG_PATH home) in
  let! g := lift (get_member "geminiApiKey" config) in
  let! g := lift (masked "geminiApiKey" g) in
  let! _ := console_log ("   Gemini API Key: " +:+ g) in
  let! a := lift (get_member "anthropicApiKey" config) in
  let! a := lift (masked "anthropicApiKey" a) in
  let! _ := console_log ("   Anthropic API Key: " +:+ a) in
  let! f := lift (get_member "defaultFramework" config) in
  let! f := lift (or_default f "nextjs") in
  let! _ := console_log ("   Default Framework: " +:+ f) in
  let! o := lift (get_member "defaultOutputDir" config) in
  let! o := lift (or_default o "./output") in
  let! _ := console_log ("   Default Output: " +:+ o) in
  let! _ := console_log "" in
  let! _ := console_log "   Environment Variables:" in
  let! _ := console_log ("   GEMINI_API_KEY: " +:+ set_or_not (GEMINI_API_KEY E)) in
  let! _ := console_log ("   ANTHROPIC_API_KEY: " +:+ set_or_not (ANTHROPIC_API_KEY E)) in
  let! _ := console_log "" in
  let! _ := console_log "   Authentication Status:" in
  let! _ :=
    try_catch
      (let! auth := Gemini.checkAuth E in
       console_log ("   Gemini: " +:+ auth.1 +:+ " - " +:+ auth.2))
      (λ e, console_log ("   Gemini: Error - " +:+ message e)) in
  let! _ :=
    try_catch
      (let! auth := Claude.checkAuth E in
       console_log ("   Claude: " +:+ auth.1 +:+ " - " +:+ auth.2))
      (λ e, console_log ("   Claude: Error - " +:+ message e)) in
  console_log "".

Definition init (home : string) (A : answers) (config : json) : Run unit :=
  let! _ := console_log (nl +:+ "⚙️  Design-to-Code Configuration" +:+ nl) in
  (* the defaults of the prompts read the four settings *)
  let! _ := lift (get_member "geminiApiKey" config) in
  let! _ := lift (get_member "anthropicApiKey" config) in
  let! _ := lift (get_member "defaultFramework" config) in
  let! _ := lift (get_member "defaultOutputDir" config) in
  (* [answers] *)
  let! config :=
    if negb (String.eqb (a_geminiApiKey A) "")
    then lift (set_member "geminiApiKey" (JStr (a_geminiApiKey A)) config)
    else ret config in
  let! config :=
    if negb (String.eqb (a_anthropicApiKey A) "")
    then lift (set_member "anthropicApiKey" (JStr (a_anthropicApiKey A)) config)
    else ret config in
  let! config := lift (set_member "defaultFramework" (JStr (a_defaultFramework A)) config) in
  let! config := lift (set_member "defaultOutputDir" (JStr (a_defaultOutputDir A)) config) in
  let! _ := in_fs (saveConfig home config) in
  let! _ := console_log (nl +:+ "✓ Configuration saved!" +:+ nl) in
  let! _ := console_log "💡 Tip: You can also use a .env file in your project:" in
  let! _ := console_log "   GEMINI_API_KEY=your_key_here" in
  console_log ("   ANTHROPIC_API_KEY=your_key_here" +:+ nl).

(** [configCommand]; an exception it throws is not caught. *)
Definition configCommand (home : string) (E : env) (A : answers) (action : option string)
    (options : config_options) : Run unit :=
  let! config := in_fs (loadConfig home) in
  if configured (cfg_gemini options) then
    save_setting home config "geminiApiKey" (default "" (cfg_gemini options))
      "✓ Gemini API key saved"
  else if configured (cfg_anthropic options) then
    save_setting home config "anthropicApiKey" (default "" (cfg_anthropic options))
      "✓ Anthropic API key saved"
  else if configured (cfg_framework options) then
    save_setting home config "defaultFramework" (default "" (cfg_framework options))
      ("✓ Default framework set to " +:+ default "" (cfg_framework options))
  else if configured (cfg_output options) then
    save_setting home config "defaultOutputDir" (default "" (cfg_output options))
      ("✓ Default output directory set to " +:+ default "" (cfg_output options))
  else if bool_decide (action = Some "show") then show home E config
  else init home A config.



(** A stored configuration, and a home directory with its file. *)
Definition stored : list (string * json) :=
  [("geminiApiKey", JStr "sk-old-1234"); ("defaultFramework", JStr "vue")].

Definition home_world : world :=
  {| w_fs := {[ ["home"] := Dir;
                ["home"; "u"] := Dir;
                ["home"; "u"; ".design-to-code.json"] := File (JSON_stringify (JObj stored)) ]};
     w_trace := [] |}.

(** [init]: a key that was answered replaces the stored one. *)
Definition keep (k a : string) (o : list (string * json)) : list (string * json) :=
  if String.eqb a "" then o else obj_set k (JStr a) o.

Definition no_options : config_options :=
  {| cfg_gemini := None; cfg_anthropic := None; cfg_framework := None; cfg_output := None |}.

Definition no_answers : answers :=
  {| a_geminiApiKey := ""; a_anthropicApiKey := "";
     a_defaultFramework := "nextjs"; a_defaultOutputDir := "./output" |}.

End Config.

(** ** [src/commands/generate.ts] *)

Module Interactive.
Import Text Json Eff Fs World Response Js.











End Interactive.

(** * Facts *)

(** ** Strings and the brace pattern *)

Section TextFacts.
Import Text.

Lemma sapp_cons c s t : String c s +:+ t = String c (s +:+ t).
Proof. reflexivity. Qed.

Lemma sapp_nil_l s : "" +:+ s = s.
Proof. reflexivity. Qed.


Lemma sapp_assoc s t u : (s +:+ t) +:+ u = s +:+ t +:+ u.
Proof. induction s as [|c s IH]; [done|]. by rewrite !sapp_cons, IH. Qed.


Lemma occurs_app c s t : occurs c (s +:+ t) = occurs c s || occurs c t.
Proof.
  induction s as [|d s IH]; [done|].
  rewrite sapp_cons. simpl. by destruct (Ascii.eqb d c).
Qed.

Lemma occurs_cons_eq c s : occurs c (String c s) = true.
Proof. simpl. by rewrite Ascii.eqb_refl. Qed.

(** The first occurrence of a character splits the string. *)
Lemma from_first_split c s :
  occurs c s = true →
  ∃ a t, s = a +:+ String c t ∧ occurs c a = false ∧ from_first c s = Some (String c t).
Proof.
  induction s as [|d s IH]; simpl; [done|].
  destruct (Ascii.eqb d c) eqn:E.
  - apply Ascii.eqb_eq in E as ->. intros _. by exists "", s.
  - intros [a [t (-> & Ha & Hf)]]%IH. exists (String d a), t.
    split; [done|]. split; [|done]. simpl. by rewrite E.
Qed.


(** The last occurrence of a character splits the string. *)
Lemma upto_last_split c s :
  occurs c s = true →
  ∃ b z, s = b +:+ String c z ∧ occurs c z = false ∧ upto_last c s = Some (b +:+ chr c).
Proof.
  induction s as [|d s IH]; simpl; [done|].
  destruct (occurs c s) eqn:Hs.
  - intros _. destruct (IH eq_refl) as [b [z (-> & Hz & Hu)]].
    exists (String d b), z. by rewrite Hu.
  - destruct (Ascii.eqb d c) eqn:E; [|done]. intros _.
    apply Ascii.eqb_eq in E as ->.
    exists "", s. repeat split; try done.
    clear IH. assert (upto_last c s = None) as ->; [|done].
    induction s as [|e s IH]; simpl in *; [done|].
    destruct (Ascii.eqb e c); [done|]. by rewrite IH.
Qed.

Lemma upto_last_none c s : occurs c s = false → upto_last c s = None.
Proof.
  induction s as [|d s IH]; simpl; [done|].
  destruct (Ascii.eqb d c); [done|]. intros H. by rewrite IH.
Qed.

Lemma any_char_ok c : cls_ok (Union Space NonSpace) c = true.
Proof. simpl. apply orb_negb_r. Qed.

(** After the opening brace the greedy star runs to the end and gives
    characters back down to the last closing brace. *)
Lemma match_tail_upto_last s :
  match_here [Star (Union Space NonSpace); One (Lit rbrace)] s = upto_last rbrace s.
Proof.
  induction s as [|c s IH]; [done|].
  change (match_here [Star (Union Space NonSpace); One (Lit rbrace)] (String c s))
    with (if cls_ok (Union Space NonSpace) c then
            match match_here [Star (Union Space NonSpace); One (Lit rbrace)] s with
            | Some m => Some (String c m)
            | None => match_here [One (Lit rbrace)] (String c s)
            end
          else match_here [One (Lit rbrace)] (String c s)).
  rewrite any_char_ok, IH. simpl.
  destruct (upto_last rbrace s); [done|]. by destruct (Ascii.eqb c rbrace).
Qed.

Lemma match_here_brace s :
  match_here brace_re s =
    match s with
    | String c s' => if Ascii.eqb c lbrace then String c <$> upto_last rbrace s' else None
    | EmptyString => None
    end.
Proof.
  destruct s as [|c s]; [done|].
  change (match_here brace_re (String c s))
    with (if Ascii.eqb c lbrace
          then String c <$> match_here [Star (Union Space NonSpace); One (Lit rbrace)] s
          else None).
  by rewrite match_tail_upto_last.
Qed.

Lemma regex_exec_brace_none s : occurs rbrace s = false → regex_exec brace_re s = None.
Proof.
  induction s as [|c s IH]; intros H.
  - done.
  - simpl in H. destruct (Ascii.eqb c rbrace) eqn:E; [done|].
    cbn [regex_exec]. rewrite match_here_brace, (upto_last_none _ _ H), (IH H).
    by destruct (Ascii.eqb c lbrace).
Qed.

Lemma occurs_upto_last c s : upto_last c s = None → occurs c s = false.
Proof.
  intros H. destruct (occurs c s) eqn:E; [|done].
  destruct (upto_last_split _ _ E) as (? & ? & _ & _ & H'). congruence.
Qed.

(** The search of the pattern is the span of the specification. *)
Lemma js_match_first_to_last s : js_match brace_re s = first_to_last s.
Proof.
  unfold js_match, first_to_last.
  induction s as [|c s IH]; [done|].
  cbn [regex_exec from_first]. rewrite match_here_brace.
  destruct (Ascii.eqb c lbrace) eqn:E.
  - destruct (upto_last rbrace s) eqn:Hu; [done|]. simpl.
    by apply regex_exec_brace_none, occurs_upto_last.
  - exact IH.
Qed.

(** Two ways of cutting a string at a character, the first cut being
    at its first occurrence. *)
Lemma first_cut_prefix c a t u x :
  a +:+ String c t = u +:+ String c x → occurs c a = false → ∃ y, t = y +:+ x.
Proof.
  revert u. induction a as [|e a IH]; intros [|d u] H Ha.
  - exists "". by simplify_eq/=.
  - rewrite !sapp_cons in H. injection H as _ ->. exists (u +:+ chr c).
    by rewrite sapp_assoc.
  - simpl in Ha. rewrite !sapp_cons in H. injection H as -> H.
    by rewrite Ascii.eqb_refl in Ha.
  - rewrite !sapp_cons in H. injection H as -> H. simpl in Ha.
    destruct (Ascii.eqb d c); [done|]. eauto.
Qed.

End TextFacts.

(** ** The extraction step *)

Section ResponseFacts.
Import Text Json Eff Fs Response.

(** C7.  Whenever the response holds a [{] with a [}] somewhere after
    it, the text handed to [JSON.parse] is the span from the first [{]
    of the response through its last [}], whatever lies in between. *)
Theorem extraction_takes_first_to_last_brace (ctx : context) (text : string) :
  (∃ u v w, text = u +:+ String lbrace (v +:+ String rbrace w)) →
  ∃ a b c,
    text = a +:+ String lbrace (b +:+ String rbrace c)
    ∧ occurs lbrace a = false
    ∧ occurs rbrace c = false
    ∧ js_match brace_re text = Some (String lbrace (b +:+ chr rbrace))
    ∧ extract ctx text = parsed (JSON_parse (String lbrace (b +:+ chr rbrace))).
Proof.
  intros (u & v & w & Htext).
  assert (occurs lbrace text = true) as Hl.
  { rewrite Htext, occurs_app, occurs_cons_eq. apply orb_true_r. }
  destruct (from_first_split _ _ Hl) as (a & t & Ha & Hna & Hff).
  assert (occurs rbrace t = true) as Hr.
  { rewrite Ha in Htext.
    destruct (first_cut_prefix _ _ _ _ _ Htext Hna) as [y ->].
    rewrite !occurs_app, occurs_cons_eq. by rewrite !orb_true_r. }
  destruct (upto_last_split _ _ Hr) as (b & c & Hb & Hnc & Hul).
  exists a, b, c. subst t.
  assert (js_match brace_re text = Some (String lbrace (b +:+ chr rbrace))) as Hm.
  { rewrite js_match_first_to_last. unfold first_to_last. by rewrite Hff, Hul. }
  unfold extract. by rewrite Hm.
Qed.

Lemma extraction_takes_first_to_last_brace_witness :
  ∃ a b c,
    "so {x} or {y} ok" = a +:+ String lbrace (b +:+ String rbrace c)
    ∧ occurs lbrace a = false
    ∧ occurs rbrace c = false
    ∧ js_match brace_re "so {x} or {y} ok" = Some (String lbrace (b +:+ chr rbrace))
    ∧ extract InGenerateCode "so {x} or {y} ok"
      = parsed (JSON_parse (String lbrace (b +:+ chr rbrace))).
Proof.
  apply (extraction_takes_first_to_last_brace InGenerateCode "so {x} or {y} ok").
  by exists "so ", "x", " or {y} ok".
Defined.








End ResponseFacts.

(** ** The file system *)

Section FsFacts.
Import Text Eff Fs Steps.
Implicit Types (s t u : gmap path node) (p q : path).

Lemma stat_lookup s p : p ≠ [] → stat s p = s !! p.
Proof. by destruct p. Qed.

Lemma stat_snoc s pre x : stat s (pre ++ [x]) = s !! (pre ++ [x]).
Proof. apply stat_lookup. by destruct pre. Qed.

Lemma stat_insert_ne s q p n : q ≠ p → stat (<[q:=n]> s) p = stat s p.
Proof. intros H. destruct p; [done|]. simpl. by rewrite lookup_insert_ne. Qed.

Lemma stat_insert_eq s q n : q ≠ [] → stat (<[q:=n]> s) q = Some n.
Proof. intros H. rewrite stat_lookup by done. apply lookup_insert_eq. Qed.

Lemma stat_sub s t p n : s ⊆ t → p ≠ [] → stat s p = Some n → stat t p = Some n.
Proof.
  intros Hsub Hp. rewrite !stat_lookup by done. intros H.
  by eapply lookup_weaken.
Qed.

Lemma parent_snoc pre x : parent (pre ++ [x]) = pre.
Proof. apply removelast_last. Qed.

(** *** [mkdirSync] with [recursive] *)

Lemma mkdir_walk_sub tgt pre rest s s' r :
  mkdir_walk tgt pre rest s = (s', r) → s ⊆ s'.
Proof.
  revert pre s. induction rest as [|x rest IH]; intros pre s; simpl.
  - by intros [= <- _].
  - rewrite stat_snoc. destruct (s !! (pre ++ [x])) as [[c|]|] eqn:E.
    + by intros [= <- _].
    + apply IH.
    + intros H%IH. etrans; [|exact H]. by apply insert_subseteq.
Qed.

Lemma mkdir_walk_dir tgt pre rest s s' :
  stat s pre = Some Dir →
  mkdir_walk tgt pre rest s = (s', Ok tt) →
  stat s' (pre ++ rest) = Some Dir.
Proof.
  revert pre s. induction rest as [|x rest IH]; intros pre s Hpre; simpl.
  - intros [= <-]. by rewrite app_nil_r.
  - rewrite stat_snoc. rewrite (cons_middle x pre rest), app_assoc.
    destruct (s !! (pre ++ [x])) as [[c|]|] eqn:E.
    + done.
    + apply IH. by rewrite stat_snoc.
    + apply IH. rewrite stat_snoc. apply lookup_insert_eq.
Qed.

(** A walk that fails fails again, in the same way, from the state
    it left. *)
Lemma mkdir_walk_fails_again tgt pre rest s s' e :
  mkdir_walk tgt pre rest s = (s', Throw e) →
  mkdir_walk tgt pre rest s' = (s', Throw e).
Proof.
  revert pre s. induction rest as [|x rest IH]; intros pre s; simpl; [done|].
  rewrite !stat_snoc. destruct (s !! (pre ++ [x])) as [[c|]|] eqn:E.
  - intros [= <- <-]. by rewrite E.
  - intros H. rewrite (lookup_weaken _ _ _ _ E (mkdir_walk_sub _ _ _ _ _ _ H)).
    by eapply IH.
  - intros H.
    assert (s' !! (pre ++ [x]) = Some Dir) as ->.
    { eapply lookup_weaken; [|exact (mkdir_walk_sub _ _ _ _ _ _ H)].
      apply lookup_insert_eq. }
    by eapply IH.
Qed.

(** A walk that fails has not reached its target. *)
Lemma mkdir_walk_fails_target tgt pre rest s s' e :
  mkdir_walk tgt pre rest s = (s', Throw e) →
  s' !! (pre ++ rest) = s !! (pre ++ rest).
Proof.
  revert pre s. induction rest as [|x rest IH]; intros pre s; simpl; [done|].
  rewrite stat_snoc, (cons_middle x pre rest), app_assoc.
  destruct (s !! (pre ++ [x])) as [[c|]|] eqn:E.
  - by intros [= <- _].
  - apply IH.
  - intros H. rewrite (IH _ _ H). apply lookup_insert_ne.
    destruct rest as [|y rest]; [done|].
    intros Heq. apply (f_equal length) in Heq. rewrite !length_app in Heq.
    simpl in Heq. lia.
Qed.


(** *** The steps *)

Lemma ensureDir_eq d s :
  ensureDir d s =
    if bool_decide (is_Some (stat s (resolve d))) then (s, Ok tt)
    else mkdir_walk (resolve d) [] (resolve d) s.
Proof.
  unfold ensureDir, bind, existsSync, gets, mkdirSync_recursive, ret.
  by destruct (bool_decide _).
Qed.

Lemma writeFileSync_ok w c s s' :
  writeFileSync w c s = (s', Ok tt) →
  resolve w ≠ [] ∧ stat s (resolve w) ≠ Some Dir
  ∧ stat s (parent (resolve w)) = Some Dir
  ∧ s' = <[resolve w := File c]> s.
Proof.
  unfold writeFileSync.
  destruct (stat s (resolve w)) as [[c0|]|] eqn:E;
    destruct (stat s (parent (resolve w))) as [[c1|]|] eqn:E'; intros [= <-];
    (split_and!; [|done..]); intros H; by rewrite H in E.
Qed.

Lemma writeFileSync_throw w c s s' e :
  writeFileSync w c s = (s', Throw e) → s' = s.
Proof.
  unfold writeFileSync.
  destruct (stat s (resolve w)) as [[c0|]|];
    destruct (stat s (parent (resolve w))) as [[c1|]|]; by intros [= <-].
Qed.

Lemma writeFileSync_run w c s :
  stat s (resolve w) ≠ Some Dir → stat s (parent (resolve w)) = Some Dir →
  writeFileSync w c s = (<[resolve w := File c]> s, Ok tt).
Proof.
  unfold writeFileSync. intros H ->. by destruct (stat s (resolve w)) as [[c0|]|].
Qed.

Lemma ensureDir_sub d s s' r : ensureDir d s = (s', r) → s ⊆ s'.
Proof.
  rewrite ensureDir_eq. case_bool_decide.
  - by intros [= <- _].
  - apply mkdir_walk_sub.
Qed.

Lemma ensureDir_ok d s s' :
  ensureDir d s = (s', Ok tt) → is_Some (stat s' (resolve d)).
Proof.
  rewrite ensureDir_eq. case_bool_decide as Hex.
  - by intros [= <-].
  - intros H%mkdir_walk_dir; [|done]. simpl in H. by rewrite H.
Qed.

Lemma ensureDir_present d s :
  is_Some (stat s (resolve d)) → ensureDir d s = (s, Ok tt).
Proof. intros H. rewrite ensureDir_eq. by rewrite bool_decide_eq_true_2. Qed.

Lemma kinds_kept_refl s : kinds_kept s s.
Proof. by intros p. Qed.

Lemma kinds_kept_trans s t u : kinds_kept s t → kinds_kept t u → kinds_kept s u.
Proof. intros H1 H2 p. destruct (H1 p), (H2 p). split; eauto. Qed.

Lemma sub_kinds_kept s t : s ⊆ t → kinds_kept s t.
Proof.
  intros Hsub p. destruct p as [|x p]; [done|]. simpl.
  split.
  - intros H. by eapply lookup_weaken.
  - destruct (s !! _) as [[c|]|] eqn:E; try done.
    by rewrite (lookup_weaken _ _ _ _ E Hsub).
Qed.

Lemma kinds_kept_some s t p : kinds_kept s t → is_Some (stat s p) → is_Some (stat t p).
Proof.
  intros H [n Hn]. destruct (H p) as [Hd Hf]. destruct n as [c|].
  - rewrite Hn in Hf. specialize (Hf eq_refl).
    destruct (stat t p) as [[?|]|]; by eauto.
  - rewrite (Hd Hn). by eauto.
Qed.

Lemma run_op_kinds o s s' r : run_op o s = (s', r) → kinds_kept s s'.
Proof.
  destruct o as [d|w c]; simpl.
  - intros H. by eapply sub_kinds_kept, ensureDir_sub.
  - destruct r as [[]|e].
    + intros (Hne & Hnd & _ & ->)%writeFileSync_ok p.
      destruct (decide (resolve w = p)) as [<-|Hp].
      * rewrite stat_insert_eq by done. split; [|done]. by intros H.
      * by rewrite stat_insert_ne.
    + intros ->%writeFileSync_throw. apply kinds_kept_refl.
Qed.

Lemma run_ops_cons o l s :
  run_ops (o :: l) s =
    match run_op o s with
    | (s', Ok _) => run_ops l s'
    | (s', Throw e) => (s', Throw e)
    end.
Proof. reflexivity. Qed.

Lemma run_ops_kinds l s s' r : run_ops l s = (s', r) → kinds_kept s s'.
Proof.
  revert s. induction l as [|o l IH]; intros s.
  - intros [= <- _]. apply kinds_kept_refl.
  - rewrite run_ops_cons. destruct (run_op o s) as [s1 [[]|e]] eqn:E.
    + intros H. eapply kinds_kept_trans; [by eapply run_op_kinds|by eapply IH].
    + intros [= <- _]. by eapply run_op_kinds.
Qed.

(** A step changes an entry only by writing to it. *)
Lemma run_op_frame o s s' r p :
  run_op o s = (s', r) → p ∉ (writes_of [o]).*1 → is_Some (s !! p) → s' !! p = s !! p.
Proof.
  destruct o as [d|w c]; simpl.
  - intros H _ [n Hn]. rewrite Hn. eapply lookup_weaken; [done|].
    by eapply ensureDir_sub.
  - intros H Hp _. destruct r as [[]|e].
    + apply writeFileSync_ok in H as (_ & _ & _ & ->).
      apply lookup_insert_ne. set_solver.
    + by apply writeFileSync_throw in H as ->.
Qed.

Lemma run_ops_frame l s s' r p :
  run_ops l s = (s', r) → p ∉ (writes_of l).*1 → is_Some (s !! p) → s' !! p = s !! p.
Proof.
  revert s. induction l as [|o l IH]; intros s.
  - by intros [= <- _].
  - rewrite run_ops_cons. intros H Hp Hs.
    assert ((p ∉ (writes_of [o]).*1) ∧ (p ∉ (writes_of l).*1)) as [Hp1 Hp2].
    { destruct o; simpl in *; set_solver. }
    destruct (run_op o s) as [s1 [[]|e]] eqn:E.
    + rewrite (IH _ H Hp2); [by eapply run_op_frame|].
      by rewrite (run_op_frame _ _ _ _ _ E Hp1 Hs).
    + injection H as <- _. by eapply run_op_frame.
Qed.

(** Replaying the steps of a completed run: on any state that differs
    from [u], an extension of the state the run reached, only in the
    content of files the steps write again, the replay completes and
    ends in [u]. *)
Lemma run_ops_replay l s s1 :
  run_ops l s = (s1, Ok tt) →
  ∀ u t, s1 ⊆ u →
    (∀ p, t !! p = u !! p
          ∨ (is_file (t !! p) = true ∧ is_file (u !! p) = true ∧ p ∈ (writes_of l).*1)) →
    run_ops l t = (u, Ok tt).
Proof.
  revert s. induction l as [|o l IH]; intros s Hrun u t Hsub Hrel.
  - assert (t = u) as ->; [|done]. apply map_eq. intros p.
    destruct (Hrel p) as [?|(_ & _ & H)]; [done|]. by apply not_elem_of_nil in H.
  - rewrite run_ops_cons in Hrun.
    destruct (run_op o s) as [sa [[]|e]] eqn:Eo; [|done].
    assert (kinds_kept sa u) as Hk.
    { eapply kinds_kept_trans; [by eapply run_ops_kinds|by apply sub_kinds_kept]. }
    assert (∀ p, is_Some (stat u p) → is_Some (stat t p)) as Hsome.
    { intros [|x p]; [done|]. simpl.
      destruct (Hrel (x :: p)) as [->|(Hf & _ & _)]; [done|].
      destruct (t !! _) as [[?|]|]; by eauto. }
    rewrite run_ops_cons. destruct o as [d|w c]; simpl in Eo |- *.
    + rewrite ensureDir_present.
      * eapply IH; [done..|]. intros p. destruct (Hrel p) as [?|(? & ? & ?)]; by auto.
      * apply Hsome. eapply kinds_kept_some; [done|]. by eapply ensureDir_ok.
    + apply writeFileSync_ok in Eo as (Hne & Hnd & Hpar & ->).
      set (q := resolve w) in *.
      assert (is_file (stat u q) = true) as Hfu.
      { apply Hk. by rewrite stat_insert_eq. }
      assert (stat u (parent q) = Some Dir) as Hpu.
      { apply Hk. destruct (decide (q = parent q)) as [Heq|Hneq].
        - destruct q as [|x q] using rev_ind; [done|].
          rewrite parent_snoc in Heq. apply (f_equal length) in Heq.
          rewrite length_app in Heq. simpl in Heq. lia.
        - by rewrite stat_insert_ne. }
      rewrite writeFileSync_run.
      * eapply IH; [done..|]. intros p.
        destruct (decide (q = p)) as [<-|Hp].
        -- rewrite lookup_insert_eq.
           destruct (decide (q ∈ (writes_of l).*1)) as [Hin|Hout].
           ++ right. split; [done|]. split; [|done]. by rewrite stat_lookup in Hfu.
           ++ left. symmetry. eapply lookup_weaken; [|done].
              rewrite (run_ops_frame _ _ _ _ _ Hrun Hout); rewrite lookup_insert_eq; by eauto.
        -- rewrite lookup_insert_ne by done.
           destruct (Hrel p) as [?|(? & ? & Hin)]; [by left|].
           right. split_and!; [done..|]. simpl in Hin. set_solver.
      * fold q. intros Hd. destruct (Hrel q) as [Heq|(Hf & _ & _)].
        -- rewrite stat_lookup in Hd, Hfu by done. rewrite Heq in Hd.
           by rewrite Hd in Hfu.
        -- rewrite stat_lookup in Hd by done. by rewrite Hd in Hf.
      * fold q. destruct (parent q) as [|y pq] eqn:Epq; [done|]. simpl in *.
        destruct (Hrel (y :: pq)) as [Heq|(_ & Hf & _)].
        -- by rewrite Heq.
        -- by rewrite Hpu in Hf.
Qed.

(** A step that throws throws again from the state it left, which
    extends the state it started from. *)
Lemma run_op_throws_again o s s' e :
  run_op o s = (s', Throw e) → s ⊆ s' ∧ run_op o s' = (s', Throw e).
Proof.
  destruct o as [d|w c]; simpl.
  - intros H. split; [by eapply ensureDir_sub|].
    revert H. rewrite !ensureDir_eq. case_bool_decide as Hex; [done|]. intros H.
    rewrite bool_decide_eq_false_2; [by eapply mkdir_walk_fails_again|].
    destruct (resolve d) as [|x q] eqn:Ed; [by destruct Hex|].
    apply mkdir_walk_fails_target in H. simpl in *. rewrite H.
    intros Hs. by apply Hex.
  - intros H. pose proof (writeFileSync_throw _ _ _ _ _ H) as ->. by split.
Qed.

Lemma run_ops_app l1 l2 s :
  run_ops (l1 ++ l2) s =
    match run_ops l1 s with
    | (s', Ok _) => run_ops l2 s'
    | (s', Throw e) => (s', Throw e)
    end.
Proof.
  revert s. induction l1 as [|o l1 IH]; intros s; [done|].
  rewrite <- app_comm_cons, !run_ops_cons.
  destruct (run_op o s) as [s1 [[]|e]]; [apply IH|done].
Qed.

(** The steps before the one that throws. *)
Lemma run_ops_throw_split l s s' e :
  run_ops l s = (s', Throw e) →
  ∃ l1 o l2 s1, l = l1 ++ o :: l2 ∧ run_ops l1 s = (s1, Ok tt)
                ∧ run_op o s1 = (s', Throw e).
Proof.
  revert s. induction l as [|o l IH]; intros s; [done|].
  rewrite run_ops_cons. destruct (run_op o s) as [s1 [[]|e1]] eqn:Eo.
  - intros (l1 & o' & l2 & s2 & -> & H1 & H2)%IH.
    exists (o :: l1), o', l2, s2. split_and!; [done| |done].
    by rewrite run_ops_cons, Eo.
  - intros [= <- <-]. by exists [], o, l, s.
Qed.

(** Running the steps again from the state they left changes nothing:
    same state, same outcome. *)
Lemma run_ops_again l s :
  run_ops l (run_ops l s).1 = run_ops l s.
Proof.
  destruct (run_ops l s) as [s' [[]|e]] eqn:E; simpl.
  - eapply run_ops_replay; [done..|]. by left.
  - destruct (run_ops_throw_split _ _ _ _ E) as (l1 & o & l2 & s1 & -> & H1 & H2).
    destruct (run_op_throws_again _ _ _ _ H2) as [Hsub Hagain].
    rewrite run_ops_app.
    rewrite (run_ops_replay _ _ _ H1 s' s' Hsub) by (by left).
    by rewrite run_ops_cons, Hagain.
Qed.

(** [saveOutput] performs its steps. *)
Lemma for_each_files_ops out fl k rest s :
  (∀ s', k s' = run_ops rest s') →
  (let! _ := for_each fl (saveFile out) in k) s
  = run_ops (concat (map (file_ops out) fl) ++ rest) s.
Proof.
  intros Hk. revert s. induction fl as [|f fl IH]; intros s.
  - apply Hk.
  - change (concat (map (file_ops out) (f :: fl)) ++ rest)
      with (OEnsure (path_dirname (path_join out (cf_path f)))
            :: OWrite (path_join out (cf_path f)) (cf_content f)
            :: (concat (map (file_ops out) fl) ++ rest)).
    rewrite !run_ops_cons.
    change (for_each (f :: fl) (saveFile out))
      with (let! _ := saveFile out f in for_each fl (saveFile out)).
    specialize (IH) as IH'. unfold bind in IH' |- *. unfold saveFile at 1. unfold bind.
    cbn [run_op].
    destruct (ensureDir _ s) as [s1 [[]|e]]; [|done].
    rewrite run_ops_cons. cbn [run_op].
    destruct (writeFileSync _ _ s1) as [s2 [[]|e]]; [|done].
    apply IH'.
Qed.

Lemma saveOutput_ops code out s :
  saveOutput code out s = run_ops (ops_of code out) s.
Proof.
  unfold saveOutput, ops_of. rewrite run_ops_cons. simpl. unfold bind at 1.
  destruct (ensureDir out s) as [s1 [[]|e]]; [|done].
  apply for_each_files_ops. intros s'. unfold setup_ops.
  destruct (negb _); [|done].
  rewrite run_ops_cons. simpl. by destruct (writeFileSync _ _ s') as [s2 [[]|e]].
Qed.

(** C6.  Running [saveOutput] a second time with the same code and
    directory, from the file system the first run left, leaves the same
    file system and ends the same way: the second run changes nothing. *)
Theorem saveOutput_idempotent (code : GeneratedCode) (outputDir : string) s :
  saveOutput code outputDir (saveOutput code outputDir s).1
  = saveOutput code outputDir s.
Proof. rewrite !saveOutput_ops. apply run_ops_again. Qed.

(** *** Well-formed file systems *)




(** *** What the writes leave *)

Lemma last_write_none p ws : last_write p ws = None → p ∉ ws.*1.
Proof.
  induction ws as [|[q c] ws IH]; simpl.
  - intros _. apply not_elem_of_nil.
  - destruct (last_write p ws); [done|]. case_decide; [done|].
    intros _. apply not_elem_of_cons. split; [done|]. by apply IH.
Qed.





(** After a completed run a written path holds what the last write to
    it wrote. *)
Lemma run_ops_last_write l s s' p c :
  run_ops l s = (s', Ok tt) → last_write p (writes_of l) = Some c →
  s' !! p = Some (File c).
Proof.
  revert s. induction l as [|o l IH]; intros s; [done|].
  rewrite run_ops_cons. destruct (run_op o s) as [s1 [[]|e]] eqn:Eo; [|done].
  intros Hrun. destruct o as [d|w c0]; simpl in Eo |- *.
  - by eapply IH.
  - destruct (last_write p (writes_of l)) as [c'|] eqn:El.
    + intros [= ->]. by eapply IH.
    + case_decide as Hq; [|done]. intros [= ->]. subst p.
      apply writeFileSync_ok in Eo as (_ & _ & _ & ->).
      rewrite (run_ops_frame _ _ _ _ _ Hrun (last_write_none _ _ El));
        rewrite lookup_insert_eq; by eauto.
Qed.

(** A file found after a run was there before or was written. *)
Lemma mkdir_walk_files tgt pre rest s s' r p c :
  mkdir_walk tgt pre rest s = (s', r) → s' !! p = Some (File c) → s !! p = Some (File c).
Proof.
  revert pre s. induction rest as [|x rest IH]; intros pre s; simpl.
  - by intros [= <- _].
  - rewrite stat_snoc. destruct (s !! (pre ++ [x])) as [[c0|]|] eqn:E.
    + by intros [= <- _].
    + apply IH.
    + intros H Hp. specialize (IH _ _ H Hp).
      destruct (decide (pre ++ [x] = p)) as [<-|Hne].
      * by rewrite lookup_insert_eq in IH.
      * by rewrite lookup_insert_ne in IH.
Qed.

Lemma run_ops_file_origin l s s' r p c :
  run_ops l s = (s', r) → s' !! p = Some (File c) →
  s !! p = Some (File c) ∨ (p, c) ∈ writes_of l.
Proof.
  revert s. induction l as [|o l IH]; intros s.
  - intros [= <- _]. by left.
  - assert (∀ s1 r1, run_op o s = (s1, r1) → s1 !! p = Some (File c) →
                     s !! p = Some (File c) ∨ (p, c) ∈ writes_of [o]) as Hop.
    { intros s1 r1. destruct o as [d|w c0]; simpl.
      - rewrite ensureDir_eq. case_bool_decide.
        + intros [= <- _]. by left.
        + intros Hw Hp. left. by eapply mkdir_walk_files.
      - destruct r1 as [[]|e].
        + intros (_ & _ & _ & ->)%writeFileSync_ok.
          destruct (decide (resolve w = p)) as [<-|Hne].
          * rewrite lookup_insert_eq. intros [= ->]. right. set_solver.
          * rewrite lookup_insert_ne by done. by left.
        + intros ->%writeFileSync_throw. by left. }
    rewrite run_ops_cons. destruct (run_op o s) as [s1 [[]|e]] eqn:Eo.
    + intros Hrun Hp. destruct (IH _ Hrun Hp) as [H1|Hin].
      * destruct (Hop _ _ eq_refl H1) as [?|Hin]; [by left|].
        right. destruct o; simpl in *; set_solver.
      * right. destruct o; simpl in *; set_solver.
    + intros [= <- _] Hp. destruct (Hop _ _ eq_refl Hp) as [?|Hin]; [by left|].
      right. destruct o; simpl in *; set_solver.
Qed.







Lemma outcome_eta {A} (x : gmap path node * outcome error A) r :
  x.2 = r → x = (x.1, r).
Proof. intros <-. by destruct x. Qed.




End FsFacts.

(** ** [JSON.stringify] and [JSON.parse] *)

Section JsonFacts.
Import Text Json.


(** *** White space *)






(** *** Strings *)



(** *** Numbers *)















(** *** Arrays and objects *)

Lemma join_cons_cons sep (x y : string) l :
  join sep (x :: y :: l) = x +:+ sep +:+ join sep (y :: l).
Proof. reflexivity. Qed.

Lemma join_head {A} sep (f : A → string) x l t :
  ∃ t', join sep (map f (x :: l)) +:+ t = f x +:+ t'.
Proof.
  destruct l as [|y l]; simpl map.
  - by exists t.
  - rewrite join_cons_cons, !sapp_assoc. by eexists.
Qed.






(** *** Fuel *)




Lemma ser_object_members lvl kv l :
  ser lvl (JObj (kv :: l))
  = "{" +:+ nl +:+ spaces (2 * S lvl)
    +:+ join ("," +:+ nl +:+ spaces (2 * S lvl)) (map (member (S lvl)) (kv :: l))
    +:+ nl +:+ spaces (2 * lvl) +:+ "}".
Proof. reflexivity. Qed.






End JsonFacts.

(** ** The design specification on disk *)

Section DesignFacts.
Import Text Json Eff Fs Response Design.















End DesignFacts.

(** ** The services *)

Section ServiceFacts.
Import Text Json Eff Fs World Response Cli.

Lemma in_fs_run {A} (m : IO A) w fs' r :
  m (w_fs w) = (fs', r) → in_fs m w = (on_fs fs' w, r).
Proof. unfold in_fs, zoom. by intros ->. Qed.

Lemma after_after w evs evs' : after (after w evs) evs' = after w (evs ++ evs').
Proof. unfold after. simpl. by rewrite app_assoc. Qed.

Lemma on_fs_after fs w evs : on_fs fs (after w evs) = after (on_fs fs w) evs.
Proof. reflexivity. Qed.

Lemma on_fs_on_fs fs fs' w : on_fs fs (on_fs fs' w) = on_fs fs w.
Proof. reflexivity. Qed.

Lemma execAsync_fails E cmd m w :
  exec_answer E cmd = ExecFail m →
  execAsync E cmd w = (after w [EvExec cmd], Throw (Error m)).
Proof. intros H. unfold execAsync, bind, emit, modify, throw. by rewrite H. Qed.

Lemma execAsync_ok E cmd out err w :
  exec_answer E cmd = ExecOk out err →
  execAsync E cmd w = (after w [EvExec cmd], Ok (out, err)).
Proof. intros H. unfold execAsync, bind, emit, modify, ret. by rewrite H. Qed.

(** *** The design service without credentials *)

Lemma getAccessToken_fails E m w :
  exec_answer E Gemini.token_command = ExecFail m →
  Gemini.getAccessToken E w
  = (after w [EvExec Gemini.token_command], Throw (Error Gemini.oauth_not_configured)).
Proof.
  intros H. unfold Gemini.getAccessToken, try_catch, bind.
  by rewrite (execAsync_fails _ _ _ _ H).
Qed.


(** *** The delegated agent *)

Lemma unlinkSync_present f fs c :
  resolve f ≠ [] → fs !! resolve f = Some (File c) →
  unlinkSync f fs = (delete (resolve f) fs, Ok tt).
Proof. intros Hne H. unfold unlinkSync. by rewrite stat_lookup, H. Qed.

Lemma unlinkSync_absent f fs :
  resolve f ≠ [] → fs !! resolve f = None →
  unlinkSync f fs = (fs, Throw (SystemError ENOENT "unlink" (resolve f))).
Proof. intros Hne H. unfold unlinkSync. by rewrite stat_lookup, H. Qed.

Lemma tmp_writable_nonroot E w : tmp_writable E w → resolve (Claude.promptFile E) ≠ [].
Proof. intros [H _] Heq. rewrite Heq in H. by apply H. Qed.

Lemma spawn_resolves E prompt w :
  spawn_rejects (spawn_answer E "claude" ["-p"; prompt]) = false →
  ∃ code chunks,
    spawn_answer E "claude" ["-p"; prompt] = SpawnClosed code chunks
    ∧ Claude.runClaudeCodeInteractive E prompt w
      = (after w [EvSpawn "claude" ["-p"; prompt]], Ok (join "" chunks)).
Proof.
  unfold Claude.runClaudeCodeInteractive, bind, emit, modify, spawn_rejects.
  destruct (spawn_answer E "claude" ["-p"; prompt]) as [code chunks|m|]; try done.
  intros H%negb_false_iff. exists code, chunks. split; [done|]. by rewrite H.
Qed.

Lemma spawn_rejected E prompt w :
  spawn_rejects (spawn_answer E "claude" ["-p"; prompt]) = true →
  Claude.runClaudeCodeInteractive E prompt w
  = (after w [EvSpawn "claude" ["-p"; prompt]],
     Throw (Error (spawn_error (spawn_answer E "claude" ["-p"; prompt])))).
Proof.
  unfold Claude.runClaudeCodeInteractive, bind, emit, modify, spawn_rejects.
  destruct (spawn_answer E "claude" ["-p"; prompt]) as [code chunks|m|]; try done.
  intros H%negb_true_iff. by rewrite H.
Qed.

(** The primary invocation resolves with output. *)
Lemma callClaudeCode_primary E prompt w out err :
  tmp_writable E w →
  exec_answer E (Claude.print_command E prompt) = ExecOk out err →
  (negb (err =? "")%string && (out =? "")%string) = false →
  Claude.callClaudeCode E prompt w
  = (left_by E w [EvExec (Claude.print_command E prompt)], Ok out).
Proof.
  intros Htmp Hexec Hout. pose proof (tmp_writable_nonroot _ _ Htmp) as Hne.
  destruct Htmp as [Hnd Hpar].
  unfold Claude.callClaudeCode, bind, try_catch.
  rewrite (in_fs_run _ _ _ _ (writeFileSync_run _ prompt _ Hnd Hpar)).
  rewrite (execAsync_ok _ _ _ _ _ Hexec).
  rewrite (in_fs_run _ _ (delete (resolve (Claude.promptFile E)) (w_fs w)) (Ok tt)).
  - simpl. rewrite Hout. done.
  - simpl. rewrite (unlinkSync_present _ _ prompt Hne) by apply lookup_insert_eq.
    by rewrite delete_insert_eq.
Qed.

(** The primary invocation rejects: the secondary one decides. *)
Lemma callClaudeCode_secondary E prompt w m :
  tmp_writable E w →
  exec_answer E (Claude.print_command E prompt) = ExecFail m →
  Claude.callClaudeCode E prompt w
  = (left_by E w [EvExec (Claude.print_command E prompt); EvSpawn "claude" ["-p"; prompt]],
     if spawn_rejects (spawn_answer E "claude" ["-p"; prompt])
     then Throw (Error (Claude.cli_not_available m))
     else Ok (spawn_output (spawn_answer E "claude" ["-p"; prompt]))).
Proof.
  intros Htmp Hexec. pose proof (tmp_writable_nonroot _ _ Htmp) as Hne.
  destruct Htmp as [Hnd Hpar].
  unfold Claude.callClaudeCode, bind, try_catch.
  rewrite (in_fs_run _ _ _ _ (writeFileSync_run _ prompt _ Hnd Hpar)).
  rewrite (execAsync_fails _ _ _ _ Hexec).
  assert (∀ evs,
    in_fs (unlinkSync (Claude.promptFile E))
      (after (on_fs (<[resolve (Claude.promptFile E):=File prompt]> (w_fs w)) w) evs)
    = (left_by E w evs, Ok tt)) as Hunlink.
  { intros evs. erewrite in_fs_run.
    - reflexivity.
    - simpl. rewrite (unlinkSync_present _ _ prompt Hne) by apply lookup_insert_eq.
      by rewrite delete_insert_eq. }
  destruct (spawn_rejects (spawn_answer E "claude" ["-p"; prompt])) eqn:Hs.
  - by rewrite (spawn_rejected _ _ _ Hs), after_after, Hunlink.
  - destruct (spawn_resolves E prompt
                (after (on_fs (<[resolve (Claude.promptFile E):=File prompt]> (w_fs w)) w)
                   [EvExec (Claude.print_command E prompt)]) Hs)
      as (code & chunks & Hsa & ->).
    rewrite after_after, Hunlink. simpl. by rewrite Hsa.
Qed.

(** The primary invocation resolves with nothing on standard output
    and text on standard error: the file is removed, the error thrown
    inside the [try] block reaches its [catch] clause, and both
    removals there throw. *)
Lemma callClaudeCode_stderr_only E prompt w err :
  tmp_writable E w →
  exec_answer E (Claude.print_command E prompt) = ExecOk "" err →
  err ≠ "" →
  Claude.callClaudeCode E prompt w
  = (left_by E w [EvExec (Claude.print_command E prompt); EvSpawn "claude" ["-p"; prompt]],
     Throw (SystemError ENOENT "unlink" (resolve (Claude.promptFile E)))).
Proof.
  intros Htmp Hexec Herr. pose proof (tmp_writable_nonroot _ _ Htmp) as Hne.
  destruct Htmp as [Hnd Hpar].
  unfold Claude.callClaudeCode, bind, try_catch.
  rewrite (in_fs_run _ _ _ _ (writeFileSync_run _ prompt _ Hnd Hpar)).
  rewrite (execAsync_ok _ _ _ _ _ Hexec).
  rewrite (in_fs_run _ _ (delete (resolve (Claude.promptFile E)) (w_fs w)) (Ok tt)).
  2:{ simpl. rewrite (unlinkSync_present _ _ prompt Hne) by apply lookup_insert_eq.
      by rewrite delete_insert_eq. }
  simpl. apply String.eqb_neq in Herr. rewrite Herr. simpl. unfold throw.
  assert (∀ evs,
    in_fs (unlinkSync (Claude.promptFile E))
      (after (on_fs (delete (resolve (Claude.promptFile E)) (w_fs w)) w) evs)
    = (after (on_fs (delete (resolve (Claude.promptFile E)) (w_fs w)) w) evs,
       Throw (SystemError ENOENT "unlink" (resolve (Claude.promptFile E)))))
    as Hunlink.
  { intros evs. erewrite in_fs_run.
    - reflexivity.
    - simpl. rewrite (unlinkSync_absent _ _ Hne) by apply lookup_delete_eq. done. }
  destruct (spawn_rejects (spawn_answer E "claude" ["-p"; prompt])) eqn:Hs.
  - rewrite (spawn_rejected _ _ _ Hs), on_fs_after, on_fs_on_fs, after_after.
    by rewrite Hunlink.
  - destruct (spawn_resolves E prompt
                (on_fs (delete (resolve (Claude.promptFile E)) (w_fs w))
                   (after (on_fs (<[resolve (Claude.promptFile E):=File prompt]> (w_fs w)) w)
                      [EvExec (Claude.print_command E prompt)])) Hs)
      as (code & chunks & Hsa & ->).
    rewrite on_fs_after, on_fs_on_fs, after_after, Hunlink. by rewrite Hunlink.
Qed.

(** *** Without credentials *)




Lemma on_fs_same w : on_fs (w_fs w) w = w.
Proof. by destruct w. Qed.




(** C8: the code at the failing input.  The agent prints a warning on
    standard error and nothing on standard output; the secondary
    invocation answers [{}], or fails.  Either way [callClaudeCode]
    ends with the error of removing the prompt file a second time. *)
Theorem prompt_file_removal_replaces_the_outcome :
  (Claude.runClaudeCodeInteractive warning_env "make a page" tmp_world).2 = Ok "{}"
  ∧ (Claude.callClaudeCode warning_env "make a page" tmp_world).2
    = Throw (SystemError ENOENT "unlink" ["tmp"; "d2c-prompt-1700000000000.txt"])
  ∧ (Claude.runClaudeCodeInteractive warning_then_failure_env "make a page" tmp_world).2
    = Throw (Error "Claude Code exited with code 1")
  ∧ (Claude.callClaudeCode warning_then_failure_env "make a page" tmp_world).2
    = Throw (SystemError ENOENT "unlink" ["tmp"; "d2c-prompt-1700000000000.txt"])
  ∧ stat (w_fs (Claude.callClaudeCode warning_env "make a page" tmp_world).1)
      ["tmp"; "d2c-prompt-1700000000000.txt"] = None.
Proof. by vm_compute. Qed.

(** C9: the code at the failing input.  The primary invocation fails
    (text on standard error only), the secondary one succeeds with a
    response that holds a JSON object, and [generateCode] fails all the
    same, with neither that object nor the CLI-not-available error. *)
Theorem secondary_output_lost_after_stderr_only :
  spawn_rejects (spawn_answer warning_env "claude"
                   ["-p"; Claude.code_prompt (Design.design_to_js Design.landing) "react"])
  = false
  ∧ extract InGenerateCode
      (spawn_output (spawn_answer warning_env "claude"
                       ["-p"; Claude.code_prompt (Design.design_to_js Design.landing) "react"]))
    = Ok (JObj [])
  ∧ (Claude.generateCode warning_env (Design.design_to_js Design.landing) "react" tmp_world).2
    = Throw (SystemError ENOENT "unlink" ["tmp"; "d2c-prompt-1700000000000.txt"]).
Proof. by vm_compute. Qed.

(** X2.  The prompt file is gone when [callClaudeCode] returns or
    throws, on every path. *)
Theorem prompt_file_removed_on_every_path (E : env) (prompt : string) (w : world) :
  tmp_writable E w →
  stat (w_fs (Claude.callClaudeCode E prompt w).1) (resolve (Claude.promptFile E)) = None.
Proof.
  intros Htmp. pose proof (tmp_writable_nonroot _ _ Htmp) as Hne.
  assert (∀ evs r, Claude.callClaudeCode E prompt w = (left_by E w evs, r) →
                   stat (w_fs (Claude.callClaudeCode E prompt w).1)
                     (resolve (Claude.promptFile E)) = None) as Hgone.
  { intros evs r ->. simpl. rewrite stat_lookup by done. apply lookup_delete_eq. }
  destruct (exec_answer E (Claude.print_command E prompt)) as [out err|m] eqn:Hexec.
  - destruct (negb (err =? "")%string && (out =? "")%string) eqn:Hout.
    + apply andb_true_iff in Hout as [Herr Ho].
      apply String.eqb_eq in Ho as ->. apply negb_true_iff, String.eqb_neq in Herr.
      eapply Hgone. by apply (callClaudeCode_stderr_only _ _ _ err).
    + eapply Hgone. by apply (callClaudeCode_primary _ _ _ out err).
  - eapply Hgone. by apply (callClaudeCode_secondary _ _ _ m).
Qed.

Lemma prompt_file_removed_on_every_path_witness :
  stat (w_fs (Claude.callClaudeCode bare_env "make a page" tmp_world).1)
    (resolve (Claude.promptFile bare_env)) = None.
Proof.
  apply (prompt_file_removed_on_every_path bare_env "make a page" tmp_world).
  split; by vm_compute.
Defined.

(** X3.  When the primary invocation rejects, the secondary one is
    run once and decides: its output is the result, and only its
    failure gives the CLI-not-available error, which quotes the error
    of the primary invocation. *)
Theorem secondary_invocation_decides (E : env) (prompt : string) (w : world) (m : string) :
  tmp_writable E w →
  exec_answer E (Claude.print_command E prompt) = ExecFail m →
  Claude.callClaudeCode E prompt w
  = (left_by E w [EvExec (Claude.print_command E prompt); EvSpawn "claude" ["-p"; prompt]],
     if spawn_rejects (spawn_answer E "claude" ["-p"; prompt])
     then Throw (Error (Claude.cli_not_available m))
     else Ok (spawn_output (spawn_answer E "claude" ["-p"; prompt]))).
Proof. apply callClaudeCode_secondary. Qed.

Lemma secondary_invocation_decides_witness :
  Claude.callClaudeCode bare_env "make a page" tmp_world
  = (left_by bare_env tmp_world
       [EvExec (Claude.print_command bare_env "make a page");
        EvSpawn "claude" ["-p"; "make a page"]],
     if spawn_rejects (spawn_answer bare_env "claude" ["-p"; "make a page"])
     then Throw (Error (Claude.cli_not_available
                          ("Command failed: " +:+ Claude.print_command bare_env "make a page")))
     else Ok (spawn_output (spawn_answer bare_env "claude" ["-p"; "make a page"]))).
Proof.
  apply (secondary_invocation_decides bare_env "make a page" tmp_world).
  - split; by vm_compute.
  - reflexivity.
Defined.

(** *** The prompt of [generateCode] *)

(** C4: the code at the failing input.  [constructor] is no key of
    the table, yet the lookup finds the function [Object] that the
    object literal inherits, and its source text stands in the prompt
    where the default block should. *)
Theorem framework_instructions_inherited_key :
  Claude.assoc "constructor" Claude.instructions_table = None
  ∧ Claude.getFrameworkInstructions "constructor" = Claude.PFunction "Object"
  ∧ Claude.code_prompt (Design.design_to_js Design.landing) "constructor"
    = Claude.code_prompt_with (Design.design_to_js Design.landing) "constructor"
        "function Object() { [native code] }"
  ∧ Claude.contains Claude.react_block
      (Claude.code_prompt (Design.design_to_js Design.landing) "constructor") = false.
Proof. by vm_compute. Qed.

(** X1.  For every framework string that is not the name of a property
    inherited from [Object.prototype], the prompt is the fixed text
    around the serialised design, the framework string and the block
    of the table for that key, or the [react] block for any other
    key. *)
Theorem code_prompt_of_own_key (design : json) (framework : string) :
  Claude.inherited framework = false →
  Claude.code_prompt design framework
  = Claude.code_prompt_with design framework (Claude.block_for framework)
  ∧ Claude.contains (JSON_stringify design) (Claude.code_prompt design framework) = true
  ∧ Claude.contains (Claude.block_for framework) (Claude.code_prompt design framework) = true.
Proof.
  intros Hin.
  assert (Claude.to_text (Claude.getFrameworkInstructions framework)
          = Claude.block_for framework) as Hblock.
  { unfold Claude.getFrameworkInstructions, Claude.get_property, Claude.block_for.
    unfold Claude.inherited in Hin.
    unfold Claude.instructions_table. cbn [Claude.assoc].
    rewrite !(String.eqb_sym _ framework).
    destruct (framework =? "nextjs")%string eqn:E1; [done|].
    destruct (framework =? "react")%string eqn:E2.
    { apply String.eqb_eq in E2 as ->. done. }
    destruct (framework =? "vue")%string eqn:E3; [done|].
    destruct (Claude.assoc framework Claude.object_prototype_functions); [done|].
    by rewrite Hin. }
  unfold Claude.code_prompt. rewrite Hblock. split; [done|].
  unfold Claude.code_prompt_with, Claude.lines. cbn [join].
  assert (∀ n s, Claude.contains n (n +:+ s) = true) as Hself.
  { intros n s. destruct n as [|c n]; [by destruct s|]. simpl. apply orb_true_iff. left.
    destruct (Ascii.ascii_dec c c); [|done]. clear.
    induction n as [|d n IH]; simpl; [by destruct s|].
    by destruct (Ascii.ascii_dec d d). }
  assert (∀ n a s, Claude.contains n s = true → Claude.contains n (a +:+ s) = true) as Hskip.
  { intros n a s H. induction a as [|c a IH]; [done|]. rewrite sapp_cons. simpl.
    apply orb_true_iff. by right. }
  split.
  - apply Hskip, Hskip, Hself.
  - do 8 apply Hskip. apply Hself.
Qed.

Lemma code_prompt_of_own_key_witness :
  Claude.code_prompt (Design.design_to_js Design.landing) "svelte"
  = Claude.code_prompt_with (Design.design_to_js Design.landing) "svelte"
      (Claude.block_for "svelte")
  ∧ Claude.contains (JSON_stringify (Design.design_to_js Design.landing))
      (Claude.code_prompt (Design.design_to_js Design.landing) "svelte") = true
  ∧ Claude.contains (Claude.block_for "svelte")
      (Claude.code_prompt (Design.design_to_js Design.landing) "svelte") = true.
Proof.
  apply (code_prompt_of_own_key (Design.design_to_js Design.landing) "svelte").
  reflexivity.
Defined.

End ServiceFacts.

(** ** More on [src/utils/file.ts] *)

Section FileFacts.
Import Text Json Eff Fs Steps Effects.
Implicit Types (s t u : gmap path node) (p q : path).





Lemma ensureDir_files d s s' r p c :
  ensureDir d s = (s', r) → s' !! p = Some (File c) ↔ s !! p = Some (File c).
Proof.
  intros He. split.
  - rewrite ensureDir_eq in He. case_bool_decide.
    + by injection He as <- _.
    + by eapply mkdir_walk_files.
  - intros Hs. eapply lookup_weaken; [done|by eapply ensureDir_sub].
Qed.

Lemma directories_kept_sub s t : s ⊆ t → directories_kept s t.
Proof.
  intros Hsub [|x p] Hd; [done|]. by apply (stat_sub s t).
Qed.

(** X5.  [saveJson] leaves at the path the printed form of the data
    and touches no other file; when it fails no file is created or
    changed.  Either way the directories there were are kept. *)
Theorem saveJson_writes_one_file (data : json) (filePath : string) s :
  let r := saveJson data filePath s in
  directories_kept s r.1
  ∧ (r.2 = Ok tt →
       r.1 !! resolve filePath = Some (File (JSON_stringify data))
       ∧ same_files_but (resolve filePath) s r.1)
  ∧ (∀ e, r.2 = Throw e → same_files s r.1).
Proof.
  intros r. subst r. unfold saveJson, bind.
  destruct (ensureDir (path_dirname filePath) s) as [s1 [[]|e1]] eqn:He.
  - pose proof (directories_kept_sub _ _ (ensureDir_sub _ _ _ _ He)) as Hk.
    destruct (writeFileSync filePath (JSON_stringify data) s1) as [s2 [[]|e2]] eqn:Hw.
    + apply writeFileSync_ok in Hw as (Hne & Hnd & _ & ->). simpl. split_and!.
      * intros p Hd. rewrite stat_insert_ne; [by apply Hk|].
        intros <-. by apply Hnd, Hk.
      * intros _. split; [apply lookup_insert_eq|].
        intros p c Hp. rewrite lookup_insert_ne by done.
        symmetry. by eapply ensureDir_files.
      * done.
    + apply writeFileSync_throw in Hw as ->. simpl. split_and!; [done|done|].
      intros _ _ p c. symmetry. by eapply ensureDir_files.
  - simpl. split_and!; [|done|].
    + by eapply directories_kept_sub, ensureDir_sub.
    + intros _ _ p c. symmetry. by eapply ensureDir_files.
Qed.

Lemma saveJson_writes_one_file_witness :
  let r := saveJson (JObj []) "out/design-spec.json" ∅ in
  r.2 = Ok tt
  ∧ r.1 !! resolve "out/design-spec.json" = Some (File (JSON_stringify (JObj [])))
  ∧ same_files_but (resolve "out/design-spec.json") ∅ r.1.
Proof.
  intros r. split; [reflexivity|].
  exact (proj1 (proj2 (saveJson_writes_one_file (JObj []) "out/design-spec.json" ∅)) eq_refl).
Defined.

Lemma file_steps_prefix out (fl : list CodeFile) setup l1 o l2 :
  length setup ≤ 1 →
  l1 ++ o :: l2 = concat (map (file_ops out) fl) ++ setup →
  ∃ n, n ≤ length fl
       ∧ writes_of l1 = map (λ f, (target out f, cf_content f)) (take n fl).
Proof.
  intros Hsetup. revert l1. induction fl as [|f fl IH]; intros l1 Heq.
  - exists 0. split; [done|]. simpl in Heq.
    destruct l1 as [|x l1]; [done|].
    destruct setup as [|y [|z setup]]; simpl in *; [done| |lia].
    injection Heq as _ Heq. by destruct l1.
  - simpl in Heq. destruct l1 as [|x [|y l1]].
    + exists 0. split; [lia|done].
    + exists 0. split; [lia|]. simpl in Heq. by injection Heq as -> _.
    + simpl in Heq. injection Heq as -> -> Heq.
      destruct (IH _ Heq) as (n & Hn & Hw). exists (S n). split; [simpl; lia|].
      simpl. by rewrite Hw.
Qed.

(** X28.  [saveOutput] does not roll back.  When it throws, the
    listed files before some point have been written and stay, each
    path holding what the last of them wrote there; no other file was
    created or changed, the setup document included. *)
Theorem saveOutput_has_no_rollback (code : GeneratedCode) (outputDir : string) s s' e :
  saveOutput code outputDir s = (s', Throw e) →
  ∃ n,
    n ≤ length (files code)
    ∧ let written := map (λ f, (target outputDir f, cf_content f)) (take n (files code)) in
      (∀ p c, last_write p written = Some c → s' !! p = Some (File c))
      ∧ (∀ p c, s' !! p = Some (File c) → s !! p = Some (File c) ∨ (p, c) ∈ written).
Proof.
  rewrite saveOutput_ops. intros Hrun.
  destruct (run_ops_throw_split _ _ _ _ Hrun) as (l1 & o & l2 & s1 & Hops & H1 & Ho).
  assert (∃ n, n ≤ length (files code)
               ∧ writes_of l1
                 = map (λ f, (target outputDir f, cf_content f)) (take n (files code)))
    as (n & Hn & Hw).
  { unfold ops_of in Hops. destruct l1 as [|x l1].
    - exists 0. split; [lia|done].
    - simpl in Hops. injection Hops as <- Hops. simpl.
      apply (file_steps_prefix outputDir (files code) (setup_ops code outputDir) l1 o l2);
        [|done].
      unfold setup_ops. destruct (negb _); simpl; lia. }
  exists n. split; [done|]. rewrite <- Hw.
  assert (∀ p c, s' !! p = Some (File c) ↔ s1 !! p = Some (File c)) as Hsame.
  { intros p c. destruct o as [d|w c0]; simpl in Ho.
    - by eapply ensureDir_files.
    - by apply writeFileSync_throw in Ho as ->. }
  split.
  - intros p c Hl. apply Hsame. by eapply run_ops_last_write.
  - intros p c Hp. apply Hsame in Hp. by eapply run_ops_file_origin.
Qed.

Lemma saveOutput_has_no_rollback_witness :
  let code :=
    {| files := [ {| cf_path := "a/b"; cf_content := "x"; cf_language := "ts" |};
                  {| cf_path := "a"; cf_content := "y"; cf_language := "ts" |} ];
       instructions := "npm install" |} in
  let s' := (saveOutput code "out" ∅).1 in
  ∃ n,
    n ≤ length (files code)
    ∧ let written := map (λ f, (target "out" f, cf_content f)) (take n (files code)) in
      (∀ p c, last_write p written = Some c → s' !! p = Some (File c))
      ∧ (∀ p c, s' !! p = Some (File c)
                → (∅ : gmap path node) !! p = Some (File c) ∨ (p, c) ∈ written).
Proof.
  intros code s'.
  apply (saveOutput_has_no_rollback code "out" ∅ s'
           (SystemError EISDIR "open" ["out"; "a"])).
  apply outcome_eta. vm_compute. reflexivity.
Defined.

End FileFacts.

(** ** More on the extraction *)

Section ExtractFacts.
Import Text Json Eff Fs Response.

Lemma from_first_head c s m : from_first c s = Some m → ∃ t, m = String c t.
Proof.
  induction s as [|d s IH]; [done|]. simpl.
  destruct (Ascii.eqb d c) eqn:E; [|done].
  apply Ascii.eqb_eq in E as ->. intros [= <-]. by eexists.
Qed.

Lemma js_match_brace_head s m : js_match brace_re s = Some m → ∃ t, m = String lbrace t.
Proof.
  rewrite js_match_first_to_last. unfold first_to_last.
  destruct (from_first lbrace s) as [f|] eqn:Hf; [|done].
  destruct (from_first_head _ _ _ Hf) as [t ->].
  destruct (upto_last rbrace t) as [u|]; [|done]. intros [= <-]. by eexists.
Qed.

Lemma JSON_parse_brace t v : JSON_parse (String lbrace t) = Some v → ∃ members, v = JObj members.
Proof.
  unfold JSON_parse.
  destruct (parse_value _ _) as [[x r]|] eqn:Hp; [|done].
  destruct (skip_ws r); [|done]. intros [= <-].
  cbn [parse_value skip_ws is_ws lbrace] in Hp.
  destruct (skip_ws t) as [|c u].
  - destruct (parse_members _ _ _ _) as [[l r']|]; [|done]. injection Hp as <- _. by eexists.
  - destruct (parse_members _ _ _ _) as [[l r']|].
    + destruct c as [[] [] [] [] [] [] [] []]; injection Hp as <- _; by eexists.
    + by destruct c as [[] [] [] [] [] [] [] []]; try discriminate; injection Hp as <- _; eexists.
Qed.

Lemma extraction_object c response v :
  extract c response = Ok v → ∃ members, v = JObj members.
Proof.
  unfold extract. destruct (js_match brace_re response) as [m|] eqn:Hm; [|done].
  destruct (js_match_brace_head _ _ Hm) as [t ->].
  destruct (JSON_parse (String lbrace t)) as [x|] eqn:Hp; [|done].
  intros [= <-]. by eapply JSON_parse_brace.
Qed.

(** X6.  Whatever the response, what the extraction returns is a JSON
    object: a response whose span parses to anything else cannot
    occur, and nothing more than that is checked. *)
Theorem extraction_yields_an_object (c : context) (response : string) (v : json) :
  extract c response = Ok v → ∃ members, v = JObj members.
Proof. apply extraction_object. Qed.

Lemma extraction_yields_an_object_witness :
  extract InGenerateDesign "Sure: {} as asked" = Ok (JObj [])
  ∧ ∃ members, JObj [] = JObj members.
Proof.
  split; [reflexivity|].
  apply (extraction_yields_an_object InGenerateDesign "Sure: {} as asked" (JObj [])).
  reflexivity.
Defined.

End ExtractFacts.

(** ** More on [src/services/gemini.ts] *)

Section GeminiFacts.
Import Text Json Eff Fs World Response Cli Effects.

Lemma emit_run e w : emit e w = (after w [e], Ok tt).
Proof. reflexivity. Qed.

Lemma sdk_generate_run E parts w :
  Gemini.sdk_generate E parts w = (after w [EvGeminiSdk parts], gemini_answer E parts).
Proof. reflexivity. Qed.

Lemma fetch_run E url token parts w :
  Gemini.fetch E url token parts w
  = (after w [EvFetch url token parts], Ok (fetch_answer E url token parts)).
Proof. reflexivity. Qed.

Lemma getAccessToken_ok E out err w :
  exec_answer E Gemini.token_command = ExecOk out err →
  Gemini.getAccessToken E w = (after w [EvExec Gemini.token_command], Ok (trim out)).
Proof.
  intros H. unfold Gemini.getAccessToken, try_catch, bind.
  by rewrite (execAsync_ok _ _ _ _ _ H).
Qed.

Lemma projectId_env E project w :
  GOOGLE_CLOUD_PROJECT E = Some project → project ≠ "" →
  Gemini.projectId E w = (w, Ok project).
Proof.
  intros H Hne. unfold Gemini.projectId. rewrite H.
  by rewrite (proj2 (String.eqb_neq _ _) Hne).
Qed.

Lemma getProjectId_run E w :
  Gemini.getProjectId E w
  = (after w [EvExec project_command],
     match exec_answer E project_command with
     | ExecOk out _ => Ok (trim out)
     | ExecFail _ => Throw (Error project_unknown)
     end).
Proof.
  unfold Gemini.getProjectId, try_catch, bind. fold project_command.
  destruct (exec_answer E project_command) as [out err|m] eqn:He.
  - by rewrite (execAsync_ok _ _ _ _ _ He).
  - by rewrite (execAsync_fails _ _ _ _ He).
Qed.

Lemma projectId_gcloud E w :
  configured (GOOGLE_CLOUD_PROJECT E) = false →
  Gemini.projectId E w
  = (after w [EvExec project_command],
     match exec_answer E project_command with
     | ExecOk out _ => Ok (trim out)
     | ExecFail _ => Throw (Error project_unknown)
     end).
Proof.
  intros H. unfold Gemini.projectId. rewrite <- getProjectId_run.
  destruct (GOOGLE_CLOUD_PROJECT E) as [p|]; [|done].
  simpl in H. apply negb_false_iff in H. by rewrite H.
Qed.

Lemma then_extract_run c r w :
  match r with
  | Ok response => Gemini.extracted c response w
  | Throw e => (w, Throw e)
  end = (w, then_extract c r).
Proof. by destruct r. Qed.

Lemma callGeminiAPI_with_key E prompt w :
  configured (GEMINI_API_KEY E) = true →
  Gemini.callGeminiAPI E prompt w
  = (after w [EvGeminiSdk [PartText prompt]], gemini_answer E [PartText prompt]).
Proof. intros Hk. unfold Gemini.callGeminiAPI, Gemini.useOAuth. by rewrite Hk. Qed.

Lemma generateDesign_with_key E prompt w :
  configured (GEMINI_API_KEY E) = true →
  Gemini.generateDesign E prompt w
  = (after w [EvGeminiSdk [PartText (Gemini.design_prompt prompt)]],
     then_extract InGenerateDesign (gemini_answer E [PartText (Gemini.design_prompt prompt)])).
Proof.
  intros Hk. unfold Gemini.generateDesign, bind. rewrite (callGeminiAPI_with_key _ _ _ Hk).
  apply then_extract_run.
Qed.

(** X7.  With an API key the design service makes one request through
    the client library and does nothing else: it runs no [gcloud]
    command, leaves the file system alone, and its result is the
    extraction from the answer, or the error of the client as it
    is. *)
Theorem design_service_with_api_key (E : env) (w : world) :
  configured (GEMINI_API_KEY E) = true →
  (∀ prompt,
     Gemini.callGeminiAPI E prompt w
     = (after w [EvGeminiSdk [PartText prompt]], gemini_answer E [PartText prompt]))
  ∧ (∀ prompt,
       Gemini.generateDesign E prompt w
       = (after w [EvGeminiSdk [PartText (Gemini.design_prompt prompt)]],
          then_extract InGenerateDesign
            (gemini_answer E [PartText (Gemini.design_prompt prompt)])))
  ∧ (∀ design feedback,
       Gemini.refineDesign E design feedback w
       = (after w [EvGeminiSdk [PartText (Gemini.refine_prompt design feedback)]],
          then_extract InRefineDesign
            (gemini_answer E [PartText (Gemini.refine_prompt design feedback)]))).
Proof.
  intros Hk. pose proof (λ prompt w, callGeminiAPI_with_key E prompt w Hk) as Hcall.
  split_and!; [done| |].
  - intros prompt. by apply generateDesign_with_key.
  - intros design feedback. unfold Gemini.refineDesign, bind. rewrite Hcall.
    apply then_extract_run.
Qed.

Lemma design_service_with_api_key_witness :
  Gemini.generateDesign keys_env "landing page" tmp_world
  = (after tmp_world [EvGeminiSdk [PartText (Gemini.design_prompt "landing page")]],
     then_extract InGenerateDesign
       (gemini_answer keys_env [PartText (Gemini.design_prompt "landing page")])).
Proof.
  exact (proj1 (proj2 (design_service_with_api_key keys_env tmp_world eq_refl)) "landing page").
Defined.

Lemma callGeminiAPI_oauth E prompt w out err :
  configured (GEMINI_API_KEY E) = false →
  exec_answer E Gemini.token_command = ExecOk out err →
  Gemini.callGeminiAPI E prompt w =
    match Gemini.projectId E (after w [EvExec Gemini.token_command]) with
    | (w1, Ok project) =>
        (after w1 [EvFetch (Gemini.endpoint project) (trim out) [PartText prompt]],
         reply (fetch_answer E (Gemini.endpoint project) (trim out) [PartText prompt]))
    | (w1, Throw e) => (w1, Throw e)
    end.
Proof.
  intros Hk Ht. unfold Gemini.callGeminiAPI, Gemini.useOAuth. rewrite Hk. cbn [negb].
  unfold bind. rewrite (getAccessToken_ok _ _ _ _ Ht).
  destruct (Gemini.projectId E _) as [w1 [project|e]]; [|done].
  rewrite fetch_run.
  destruct (fetch_answer E _ _ _) as [[] body [t|]|m]; reflexivity.
Qed.

(** X8.  Without a key the design service asks [gcloud] for a token,
    takes the project from [GOOGLE_CLOUD_PROJECT] when that is set and
    not empty and asks [gcloud] for it only otherwise, and then posts
    the prompt once to the endpoint of that project with the trimmed
    token.  When the project cannot be determined nothing is posted.
    An answer that is not ok becomes the error with its body. *)
Theorem oauth_request_assembly (E : env) (prompt : string) (w : world)
    (token_out token_err : string) :
  configured (GEMINI_API_KEY E) = false →
  exec_answer E Gemini.token_command = ExecOk token_out token_err →
  let token := trim token_out in
  (∀ project,
     GOOGLE_CLOUD_PROJECT E = Some project → project ≠ "" →
     Gemini.callGeminiAPI E prompt w
     = (after w [EvExec Gemini.token_command;
                 EvFetch (Gemini.endpoint project) token [PartText prompt]],
        reply (fetch_answer E (Gemini.endpoint project) token [PartText prompt])))
  ∧ (configured (GOOGLE_CLOUD_PROJECT E) = false →
     ∀ out err,
       exec_answer E project_command = ExecOk out err →
       Gemini.callGeminiAPI E prompt w
       = (after w [EvExec Gemini.token_command; EvExec project_command;
                   EvFetch (Gemini.endpoint (trim out)) token [PartText prompt]],
          reply (fetch_answer E (Gemini.endpoint (trim out)) token [PartText prompt])))
  ∧ (configured (GOOGLE_CLOUD_PROJECT E) = false →
     ∀ m,
       exec_answer E project_command = ExecFail m →
       Gemini.callGeminiAPI E prompt w
       = (after w [EvExec Gemini.token_command; EvExec project_command],
          Throw (Error project_unknown)))
  ∧ (∀ body candidate,
       reply (FetchResponse false body candidate) = Throw (Error ("Gemini API error: " +:+ body))).
Proof.
  intros Hk Ht token. rewrite (callGeminiAPI_oauth _ _ _ _ _ Hk Ht). split_and!.
  - intros project Hp Hne. rewrite (projectId_env _ _ _ Hp Hne).
    by rewrite after_after.
  - intros Hp out err Ho. rewrite (projectId_gcloud _ _ Hp), Ho.
    by rewrite !after_after.
  - intros Hp m Hm. rewrite (projectId_gcloud _ _ Hp), Hm.
    by rewrite !after_after.
  - done.
Qed.

Lemma oauth_request_assembly_witness :
  Gemini.callGeminiAPI gcloud_env "landing page" tmp_world
  = (after tmp_world
       [EvExec Gemini.token_command; EvExec project_command;
        EvFetch (Gemini.endpoint (trim ("my-project" +:+ nl))) (trim ("ya29.token" +:+ nl))
          [PartText "landing page"]],
     reply (fetch_answer gcloud_env (Gemini.endpoint (trim ("my-project" +:+ nl)))
              (trim ("ya29.token" +:+ nl)) [PartText "landing page"]))
  ∧ trim ("ya29.token" +:+ nl) = "ya29.token".
Proof.
  split; [|reflexivity].
  exact (proj1 (proj2 (oauth_request_assembly gcloud_env "landing page" tmp_world
                         ("ya29.token" +:+ nl) "" eq_refl eq_refl))
           eq_refl ("my-project" +:+ nl) "" eq_refl).
Defined.

Lemma ends_with_spec suffix s :
  ends_with suffix s = true ↔ ∃ stem, s = stem +:+ suffix.
Proof.
  split.
  - induction s as [|c s IH]; cbn [ends_with].
    + rewrite orb_false_r. intros H%String.eqb_eq. by exists "".
    + intros [H%String.eqb_eq|H]%orb_true_iff.
      * by exists "".
      * destruct (IH H) as [stem ->]. by exists (String c stem).
  - intros [stem ->]. induction stem as [|c stem IH].
    + rewrite sapp_nil_l. destruct suffix; cbn [ends_with]; by rewrite String.eqb_refl.
    + rewrite sapp_cons. cbn [ends_with]. rewrite IH. apply orb_true_r.
Qed.

(** X9.  [analyzeImage] reads the image before anything else: when
    there is no file at the path it throws the error of the read, and
    has run no command and made no request. *)
Theorem analyzeImage_reads_the_image_first (E : env) (imagePath : string) (w : world) :
  (∀ c, stat (w_fs w) (resolve imagePath) ≠ Some (File c)) →
  ∃ code syscall,
    Gemini.analyzeImage E imagePath w
    = (w, Throw (SystemError code syscall (resolve imagePath))).
Proof.
  intros Hno. unfold Gemini.analyzeImage, bind, in_fs, zoom, readFileSync.
  destruct (stat (w_fs w) (resolve imagePath)) as [[c|]|] eqn:Hs.
  - by destruct (Hno c).
  - exists EISDIR, "read". by destruct w.
  - exists ENOENT, "open". by destruct w.
Qed.

Lemma analyzeImage_reads_the_image_first_witness :
  ∃ code syscall,
    Gemini.analyzeImage keys_env "missing.png" tmp_world
    = (tmp_world, Throw (SystemError code syscall (resolve "missing.png"))).
Proof.
  apply (analyzeImage_reads_the_image_first keys_env "missing.png" tmp_world).
  intros c. by vm_compute.
Defined.

(** X10.  The request of [analyzeImage] carries the image as
    [image/png] exactly when the path ends in [.png] as written, and
    as [image/jpeg] otherwise.  With a key it goes through the client
    library with the long instruction; without one it is posted with
    the short instruction, and the answer is used whether it is ok or
    not. *)
Theorem analyzeImage_request (E : env) (imagePath : string) (w : world) (c : string) :
  stat (w_fs w) (resolve imagePath) = Some (File c) →
  let mimeType := if ends_with ".png" imagePath then "image/png" else "image/jpeg" in
  let inline := PartInline mimeType (base64 E c) in
  (ends_with ".png" imagePath = true ↔ ∃ stem, imagePath = stem +:+ ".png")
  ∧ (configured (GEMINI_API_KEY E) = true →
     Gemini.analyzeImage E imagePath w
     = (after w [EvGeminiSdk [PartText Gemini.image_prompt; inline]],
        then_extract InAnalyzeImage
          (gemini_answer E [PartText Gemini.image_prompt; inline])))
  ∧ (configured (GEMINI_API_KEY E) = false →
     ∀ out err project ok body response,
       exec_answer E Gemini.token_command = ExecOk out err →
       GOOGLE_CLOUD_PROJECT E = Some project → project ≠ "" →
       fetch_answer E (Gemini.endpoint project) (trim out)
         [PartText Gemini.image_prompt_oauth; inline]
       = FetchResponse ok body (Some response) →
       Gemini.analyzeImage E imagePath w
       = (after w [EvExec Gemini.token_command;
                   EvFetch (Gemini.endpoint project) (trim out)
                     [PartText Gemini.image_prompt_oauth; inline]],
          extract InAnalyzeImage response)).
Proof.
  intros Hc mimeType inline. split; [apply ends_with_spec|].
  assert (in_fs (readFileSync imagePath) w = (w, Ok c)) as Hread.
  { rewrite (in_fs_run _ _ (w_fs w) (Ok c)); [by rewrite on_fs_same|].
    unfold readFileSync. by rewrite Hc. }
  split.
  - intros Hk. unfold Gemini.analyzeImage, bind. rewrite Hread.
    unfold Gemini.useOAuth. rewrite Hk. cbn [negb]. rewrite sdk_generate_run.
    apply then_extract_run.
  - intros Hk out err project ok body response Ht Hp Hne Hf.
    unfold Gemini.analyzeImage, bind. rewrite Hread.
    unfold Gemini.useOAuth. rewrite Hk. cbn [negb].
    rewrite (getAccessToken_ok _ _ _ _ Ht), (projectId_env _ _ _ Hp Hne), fetch_run.
    fold mimeType. fold inline. by rewrite Hf, after_after.
Qed.

Lemma analyzeImage_request_witness :
  let inline := PartInline "image/png" "PNG" in
  Gemini.analyzeImage keys_env "shot.png" picture_world
  = (after picture_world [EvGeminiSdk [PartText Gemini.image_prompt; inline]],
     then_extract InAnalyzeImage (gemini_answer keys_env [PartText Gemini.image_prompt; inline])).
Proof.
  exact (proj1 (proj2 (analyzeImage_request keys_env "shot.png" picture_world "PNG" eq_refl))
           eq_refl).
Defined.

(** X11.  Neither [checkAuth] throws or makes a request.  With a key
    it answers at once, without trying the key; without one it runs
    one local command and reports whether that succeeded. *)
Theorem checkAuth_never_throws (E : env) (w : world) :
  Gemini.checkAuth E w
  = (if configured (GEMINI_API_KEY E) then (w, Ok ("API Key", "configured"))
     else (after w [EvExec Gemini.token_command],
           Ok ("Google OAuth",
               if exec_succeeds (exec_answer E Gemini.token_command)
               then "authenticated" else "not authenticated")))
  ∧ Claude.checkAuth E w
    = (if configured (ANTHROPIC_API_KEY E) then (w, Ok ("API Key", "configured"))
       else (after w [EvExec "claude --version"],
             Ok ("Claude Code CLI",
                 if exec_succeeds (exec_answer E "claude --version")
                 then "available" else "not available"))).
Proof.
  split.
  - unfold Gemini.checkAuth, Gemini.useOAuth.
    destruct (configured (GEMINI_API_KEY E)); [done|]. cbn [negb]. unfold try_catch, bind.
    destruct (exec_answer E Gemini.token_command) as [out err|m] eqn:He.
    + by rewrite (getAccessToken_ok _ _ _ _ He).
    + by rewrite (getAccessToken_fails _ _ _ He).
  - unfold Claude.checkAuth, Claude.useClaudeCode.
    destruct (configured (ANTHROPIC_API_KEY E)); [done|]. cbn [negb]. unfold try_catch, bind.
    destruct (exec_answer E "claude --version") as [out err|m] eqn:He.
    + by rewrite (execAsync_ok _ _ _ _ _ He).
    + by rewrite (execAsync_fails _ _ _ _ He).
Qed.






End GeminiFacts.

(** ** More on [src/services/claude.ts] *)

Section ClaudeFacts.
Import Text Json Eff Fs World Response Cli Effects.

Lemma callAPI_with_key E prompt w :
  configured (ANTHROPIC_API_KEY E) = true →
  Claude.callAPI E prompt w = (after w [EvAnthropicSdk prompt], anthropic_answer E prompt).
Proof. intros Hk. unfold Claude.callAPI, Claude.useClaudeCode. by rewrite Hk. Qed.

Lemma claude_then_extract_run c r w :
  match r with
  | Ok response => Claude.extracted c response w
  | Throw e => (w, Throw e)
  end = (w, then_extract c r).
Proof. by destruct r. Qed.

Lemma generateCode_with_key E design framework w :
  configured (ANTHROPIC_API_KEY E) = true →
  Claude.generateCode E design framework w
  = (after w [EvAnthropicSdk (Claude.code_prompt design framework)],
     then_extract InGenerateCode (anthropic_answer E (Claude.code_prompt design framework))).
Proof.
  intros Hk. unfold Claude.generateCode, bind.
  rewrite (callAPI_with_key _ _ _ Hk). apply claude_then_extract_run.
Qed.

(** X12.  With an API key the code service makes one request through
    the client library and does nothing else: no prompt file is
    written, no process is started.  [generateCode] and [addFeature]
    return the extraction from the answer, [refactorCode] the answer
    as it is. *)
Theorem code_service_with_api_key (E : env) (w : world) :
  configured (ANTHROPIC_API_KEY E) = true →
  (∀ design framework,
     Claude.generateCode E design framework w
     = (after w [EvAnthropicSdk (Claude.code_prompt design framework)],
        then_extract InGenerateCode
          (anthropic_answer E (Claude.code_prompt design framework))))
  ∧ (∀ code feature framework,
       Claude.addFeature E code feature framework w
       = (after w [EvAnthropicSdk (Claude.feature_prompt code feature framework)],
          then_extract InAddFeature
            (anthropic_answer E (Claude.feature_prompt code feature framework))))
  ∧ (∀ code instructions,
       Claude.refactorCode E code instructions w
       = (after w [EvAnthropicSdk (Claude.refactor_prompt code instructions)],
          anthropic_answer E (Claude.refactor_prompt code instructions))).
Proof.
  intros Hk. split_and!.
  - intros design framework. by apply generateCode_with_key.
  - intros code feature framework. unfold Claude.addFeature, bind.
    rewrite (callAPI_with_key _ _ _ Hk). apply claude_then_extract_run.
  - intros code instructions. unfold Claude.refactorCode.
    apply (callAPI_with_key _ _ _ Hk).
Qed.

Lemma code_service_with_api_key_witness :
  Claude.refactorCode keys_env "let x = 1" "use const" tmp_world
  = (after tmp_world [EvAnthropicSdk (Claude.refactor_prompt "let x = 1" "use const")],
     anthropic_answer keys_env (Claude.refactor_prompt "let x = 1" "use const")).
Proof.
  exact (proj2 (proj2 (code_service_with_api_key keys_env tmp_world eq_refl))
           "let x = 1" "use const").
Defined.

(** X13.  Without a key, when the first invocation of the agent
    resolves with anything on standard output, or with nothing on
    either stream, its standard output is the response, whatever is on
    standard error: the second invocation is not run, the prompt file
    is gone, and [generateCode] returns the extraction from that
    output. *)
Theorem agent_primary_output (E : env) (design : json) (framework : string) (w : world)
    (out err : string) :
  configured (ANTHROPIC_API_KEY E) = false →
  tmp_writable E w →
  exec_answer E (Claude.print_command E (Claude.code_prompt design framework))
  = ExecOk out err →
  out ≠ "" ∨ err = "" →
  Claude.generateCode E design framework w
  = (left_by E w [EvExec (Claude.print_command E (Claude.code_prompt design framework))],
     extract InGenerateCode out).
Proof.
  intros Hk Htmp He Hout. unfold Claude.generateCode, bind, Claude.callAPI, Claude.useClaudeCode.
  rewrite Hk. cbn [negb].
  rewrite (callClaudeCode_primary _ _ _ out err Htmp He); [done|].
  destruct Hout as [Hout| ->].
  - apply String.eqb_neq in Hout. rewrite Hout. apply andb_false_r.
  - done.
Qed.

Lemma agent_primary_output_witness :
  Claude.generateCode agent_env (Design.design_to_js Design.landing) "react" tmp_world
  = (left_by agent_env tmp_world
       [EvExec (Claude.print_command agent_env
                  (Claude.code_prompt (Design.design_to_js Design.landing) "react"))],
     extract InGenerateCode "Here: {} done")
  ∧ extract InGenerateCode "Here: {} done" = Ok (JObj []).
Proof.
  split; [|reflexivity].
  apply (agent_primary_output agent_env (Design.design_to_js Design.landing) "react" tmp_world
           "Here: {} done" "thinking").
  - reflexivity.
  - split; by vm_compute.
  - reflexivity.
  - by left.
Defined.

(** X14.  Without a key, when the first invocation of the agent
    rejects, the second is what counts, and it is judged by its output
    before its exit status: any output is the response, even from a
    process that exits with an error; no output and status 0 is the
    empty response, which [generateCode] cannot parse; no output and
    any other status is the CLI-not-available error. *)
Theorem agent_secondary_output (E : env) (design : json) (framework : string) (w : world)
    (m : string) (code : option Z) (chunks : list string) :
  let prompt := Claude.code_prompt design framework in
  configured (ANTHROPIC_API_KEY E) = false →
  tmp_writable E w →
  exec_answer E (Claude.print_command E prompt) = ExecFail m →
  spawn_answer E "claude" ["-p"; prompt] = SpawnClosed code chunks →
  Claude.generateCode E design framework w
  = (left_by E w [EvExec (Claude.print_command E prompt); EvSpawn "claude" ["-p"; prompt]],
     if bool_decide (chunks = []) then
       if bool_decide (code = Some 0%Z)
       then Throw (Error (parse_failure InGenerateCode))
       else Throw (Error (Claude.cli_not_available m))
     else extract InGenerateCode (join "" chunks)).
Proof.
  intros prompt Hk Htmp He Hs.
  unfold Claude.generateCode, bind, Claude.callAPI, Claude.useClaudeCode.
  rewrite Hk. cbn [negb]. fold prompt.
  rewrite (callClaudeCode_secondary _ _ _ m Htmp He), Hs. unfold spawn_rejects, spawn_output.
  case_bool_decide as Hc; case_bool_decide as Hz; subst; try done.
Qed.

Lemma agent_secondary_output_witness :
  let prompt := Claude.code_prompt (Design.design_to_js Design.landing) "react" in
  Claude.generateCode late_agent_env (Design.design_to_js Design.landing) "react" tmp_world
  = (left_by late_agent_env tmp_world
       [EvExec (Claude.print_command late_agent_env prompt); EvSpawn "claude" ["-p"; prompt]],
     extract InGenerateCode (join "" ["Here: {"; "} done"]))
  ∧ extract InGenerateCode (join "" ["Here: {"; "} done"]) = Ok (JObj []).
Proof.
  intros prompt. split; [|reflexivity].
  apply (agent_secondary_output late_agent_env (Design.design_to_js Design.landing) "react"
           tmp_world ("Command failed: " +:+ Claude.print_command late_agent_env prompt)
           (Some 1%Z) ["Here: {"; "} done"]).
  - reflexivity.
  - split; by vm_compute.
  - reflexivity.
  - reflexivity.
Defined.

Lemma substring_app_prefix P R n :
  String.length P ≤ n →
  String.substring 0 n (P +:+ R) = P +:+ String.substring 0 (n - String.length P) R.
Proof.
  revert n. induction P as [|c P IH]; intros n Hle.
  - simpl. by rewrite Nat.sub_0_r.
  - destruct n as [|n]; [simpl in Hle; lia|]. rewrite !sapp_cons.
    cbn [String.substring String.length]. f_equal. apply IH. simpl in Hle. lia.
Qed.

(** X26.  The command line of the first invocation of the agent
    holds the start of the prompt between double quotes as it is,
    nothing escaped.  For [generateCode] on a design that is an object
    with a member, the first double quote after the opening one is
    the quote that opens the first key of the printed design. *)
Theorem primary_command_quotes_the_prompt_raw (E : env) (framework : string)
    (k : string) (v : json) (l : list (string * json)) :
  let before := Claude.code_prompt_head +:+ nl +:+ "{" +:+ nl +:+ "  " in
  occurs "034" before = false
  ∧ ∃ rest,
      Claude.print_command E (Claude.code_prompt (JObj ((k, v) :: l)) framework)
      = "claude --print " +:+ dq +:+ before +:+ dq +:+ rest.
Proof.
  intros before. split; [by vm_compute|].
  assert (∃ R, Claude.code_prompt (JObj ((k, v) :: l)) framework
               = (before +:+ dq) +:+ R) as [R HR].
  { unfold Claude.code_prompt, Claude.code_prompt_with, Claude.lines, JSON_stringify.
    rewrite join_cons_cons, join_cons_cons, ser_object_members.
    destruct (join_head ("," +:+ nl +:+ spaces (2 * 1)) (member 1) (k, v) l
                (nl +:+ spaces (2 * 0) +:+ "}")) as [t' Ht].
    rewrite Ht. unfold member, quote. subst before. eexists. rewrite !sapp_assoc.
    reflexivity. }
  unfold Claude.print_command. rewrite HR.
  rewrite substring_app_prefix by (vm_compute; lia).
  eexists. rewrite !sapp_assoc. reflexivity.
Qed.

End ClaudeFacts.

(** ** The commands *)

Section CommandFacts.
Import Text Json Eff Fs World Response Cli Effects.

Lemma missing_some x : x ≠ "" → missing (Some x) = false.
Proof. intros H. unfold missing, configured. by rewrite (proj2 (String.eqb_neq _ _) H). Qed.

Lemma log_after line w evs : log line (after w evs) = after w (evs ++ [EvLog line]).
Proof. unfold log, after. simpl. by rewrite app_assoc. Qed.

Lemma readFile_missing file s :
  stat s (resolve file) = None →
  readFile file s = (s, Throw (Error ("File not found: " +:+ file))).
Proof.
  intros H. unfold readFile, bind, existsSync, gets. rewrite H.
  rewrite bool_decide_eq_false_2; [done|]. by intros [x Hx].
Qed.

Lemma readFile_present file s c :
  stat s (resolve file) = Some (File c) → readFile file s = (s, Ok c).
Proof.
  intros H. unfold readFile, bind, existsSync, gets. rewrite H.
  rewrite bool_decide_eq_true_2 by eauto. cbn [negb]. unfold readFileSync. by rewrite H.
Qed.

Lemma in_fs_same {A} (m : IO A) w r : m (w_fs w) = (w_fs w, r) → in_fs m w = (w, r).
Proof. intros H. rewrite (in_fs_run _ _ _ _ H). by rewrite on_fs_same. Qed.

(** X15.  A command given an unknown action, or an action without
    what it requires, reports it and exits with status 1; it has
    made no request, run no process and touched no file. *)
Theorem commands_reject_incomplete_arguments (E : env) (w : world) :
  (∀ action input options,
     (action ≠ "generate" ∧ action ≠ "analyze" ∧ action ≠ "refine")
     ∨ missing input = true
     ∨ (action = "refine" ∧ missing (do_design options) = true) →
     ∃ line, designCommand E action input options w = (log line w, 1%Z))
  ∧ (∀ action options,
       (action ≠ "generate" ∧ action ≠ "refactor" ∧ action ≠ "add-feature")
       ∨ (action = "generate" ∧ missing (co_design options) = true)
       ∨ (action = "refactor"
          ∧ (missing (co_code options) = true ∨ missing (co_instructions options) = true))
       ∨ (action = "add-feature"
          ∧ (missing (co_code options) = true ∨ missing (co_feature options) = true)) →
       ∃ line, codeCommand E action options w = (log line w, 1%Z)).
Proof.
  split.
  - intros action input options H. unfold designCommand.
    destruct (String.eqb_spec action "generate") as [->|Hg].
    { destruct H as [(? & _)|[->| (? & _)]]; by eauto. }
    destruct (String.eqb_spec action "analyze") as [->|Ha].
    { destruct H as [(_ & ? & _)|[->| (? & _)]]; by eauto. }
    destruct (String.eqb_spec action "refine") as [->|Hr]; [|by eauto].
    destruct H as [(_ & _ & ?)|[->| (_ & ->)]]; [done|by eauto|].
    rewrite orb_true_r. by eauto.
  - intros action options H. unfold codeCommand.
    destruct (String.eqb_spec action "generate") as [->|Hg].
    { destruct H as [(? & _)|[(_ & ->)|[(? & _)|(? & _)]]]; by eauto. }
    destruct (String.eqb_spec action "refactor") as [->|Ha].
    { destruct H as [(_ & ? & _)|[(? & _)|[(_ & [-> | ->])|(? & _)]]];
        try done; rewrite ?orb_true_r; by eauto. }
    destruct (String.eqb_spec action "add-feature") as [->|Hr]; [|by eauto].
    destruct H as [(_ & _ & ?)|[(? & _)|[(? & _)|(_ & [-> | ->])]]];
      try done; rewrite ?orb_true_r; by eauto.
Qed.

Lemma commands_reject_incomplete_arguments_witness :
  (∃ line, designCommand bare_env "publish" (Some "x")
             {| do_output := "./design-spec.json"; do_design := None |} tmp_world
           = (log line tmp_world, 1%Z))
  ∧ (∃ line, codeCommand bare_env "refactor"
               {| co_design := None; co_code := Some "a.ts"; co_instructions := None;
                  co_feature := None; co_output := "./output"; co_framework := "nextjs" |}
               tmp_world
             = (log line tmp_world, 1%Z)).
Proof.
  split.
  - apply (proj1 (commands_reject_incomplete_arguments bare_env tmp_world)).
    left. by split_and!.
  - apply (proj2 (commands_reject_incomplete_arguments bare_env tmp_world)).
    right. right. left. split; [done|]. by right.
Defined.





(** X18.  With an API key, [code refactor] on a code file replaces
    the content of that file by the answer of the model, whole and as
    it is, an empty answer included; when the model fails the file is
    left as it was and the command exits with status 1. *)
Theorem refactor_overwrites_in_place (E : env) (file instructions code : string)
    (options : code_options) (w : world) :
  configured (ANTHROPIC_API_KEY E) = true →
  co_code options = Some file → file ≠ "" →
  co_instructions options = Some instructions → instructions ≠ "" →
  stat (w_fs w) (resolve file) = Some (File code) →
  stat (w_fs w) (parent (resolve file)) = Some Dir →
  let prompt := Claude.refactor_prompt code instructions in
  codeCommand E "refactor" options w
  = match anthropic_answer E prompt with
    | Ok answer =>
        (after (on_fs (<[resolve file := File answer]> (w_fs w)) w) [EvAnthropicSdk prompt],
         0%Z)
    | Throw e =>
        (after w [EvAnthropicSdk prompt; EvLog (spinner_error (message e))], 1%Z)
    end.
Proof.
  intros Hk Hc Hfile Hi Hins Hs Hpar prompt.
  unfold codeCommand. cbn [String.eqb Ascii.eqb Bool.eqb].
  rewrite Hc, Hi, (missing_some _ Hfile), (missing_some _ Hins).
  cbn [default from_option id orb]. unfold command, bind.
  rewrite (in_fs_same _ _ _ (readFile_present _ _ _ Hs)).
  unfold Claude.refactorCode. rewrite (callAPI_with_key _ _ _ Hk). fold prompt.
  destruct (anthropic_answer E prompt) as [answer|e].
  - rewrite (in_fs_run _ _ (<[resolve file := File answer]> (w_fs w)) (Ok tt)); [done|].
    apply writeFileSync_run; [|done]. simpl. by rewrite Hs.
  - by rewrite log_after.
Qed.

Lemma refactor_overwrites_in_place_witness :
  let options :=
    {| co_design := None; co_code := Some "a.ts"; co_instructions := Some "use const";
       co_feature := None; co_output := "./output"; co_framework := "nextjs" |} in
  let prompt := Claude.refactor_prompt "let x = 1" "use const" in
  codeCommand keys_env "refactor" options code_world
  = (after (on_fs (<[["a.ts"] := File code_response]> (w_fs code_world)) code_world)
       [EvAnthropicSdk prompt], 0%Z).
Proof.
  intros options prompt.
  apply (refactor_overwrites_in_place keys_env "a.ts" "use const" "let x = 1" options
           code_world); try done.
Defined.



(** X20.  [code] reads its input file before it asks the code model:
    when there is nothing at the path it reports [File not found]
    with the path as it was given and exits with status 1; no request
    was made and no file written. *)
Theorem code_reads_its_input_first (E : env) (w : world) :
  (∀ options file,
     co_design options = Some file → file ≠ "" →
     stat (w_fs w) (resolve file) = None →
     codeCommand E "generate" options w
     = (log ("Error: File not found: " +:+ file) w, 1%Z))
  ∧ (∀ options file instructions,
       co_code options = Some file → file ≠ "" →
       co_instructions options = Some instructions → instructions ≠ "" →
       stat (w_fs w) (resolve file) = None →
       codeCommand E "refactor" options w
       = (log ("Error: File not found: " +:+ file) w, 1%Z))
  ∧ (∀ options file feature,
       co_code options = Some file → file ≠ "" →
       co_feature options = Some feature → feature ≠ "" →
       stat (w_fs w) (resolve file) = None →
       codeCommand E "add-feature" options w
       = (log ("Error: File not found: " +:+ file) w, 1%Z)).
Proof.
  split_and!.
  - intros options file Hd Hfile Hs.
    unfold codeCommand. cbn [String.eqb Ascii.eqb Bool.eqb].
    rewrite Hd, (missing_some _ Hfile). cbn [default from_option id].
    unfold command, bind.
    assert (Design.load_for_generate file (w_fs w)
            = (w_fs w, Throw (Error ("File not found: " +:+ file)))) as Hl.
    { unfold Design.load_for_generate, bind. by rewrite (readFile_missing _ _ Hs). }
    by rewrite (in_fs_same _ _ _ Hl).
  - intros options file instructions Hc Hfile Hi Hins Hs.
    unfold codeCommand. cbn [String.eqb Ascii.eqb Bool.eqb].
    rewrite Hc, Hi, (missing_some _ Hfile), (missing_some _ Hins).
    cbn [default from_option id orb]. unfold command, bind.
    by rewrite (in_fs_same _ _ _ (readFile_missing _ _ Hs)).
  - intros options file feature Hc Hfile Hf Hfeat Hs.
    unfold codeCommand. cbn [String.eqb Ascii.eqb Bool.eqb].
    rewrite Hc, Hf, (missing_some _ Hfile), (missing_some _ Hfeat).
    cbn [default from_option id orb]. unfold command, bind.
    by rewrite (in_fs_same _ _ _ (readFile_missing _ _ Hs)).
Qed.



Lemma code_reads_its_input_first_witness :
  codeCommand bare_env "generate"
    {| co_design := Some "design.json"; co_code := None; co_instructions := None;
       co_feature := None; co_output := "./output"; co_framework := "nextjs" |} tmp_world
  = (log ("Error: File not found: " +:+ "design.json") tmp_world, 1%Z).
Proof.
  apply (proj1 (code_reads_its_input_first bare_env tmp_world)); try done.
Defined.

End CommandFacts.

(** ** The configuration *)

Section ConfigFacts.
Import Text Json Eff Fs World Response Cli Effects Js Config.

Lemma loadConfig_run home s :
  loadConfig home s
  = (s, Ok (match stat s (resolve (CONFIG_PATH home)) with
            | Some (File c) => default (JObj []) (JSON_parse c)
            | _ => JObj []
            end)).
Proof.
  unfold loadConfig, try_catch, bind, existsSync, gets, readFileSync.
  destruct (stat s (resolve (CONFIG_PATH home))) as [[c|]|] eqn:Hs.
  - rewrite bool_decide_eq_true_2 by eauto. rewrite Hs.
    by destruct (JSON_parse c).
  - rewrite bool_decide_eq_true_2 by eauto. by rewrite Hs.
  - rewrite bool_decide_eq_false_2; [done|]. by intros [x Hx].
Qed.

Lemma JSON_parse_blank c : skip_ws c = "" → JSON_parse c = None.
Proof. intros H. unfold JSON_parse. simpl. by rewrite H. Qed.

(** X21.  [loadConfig] never throws and never changes a file.  It
    returns the empty object when there is no file at the path of the
    configuration, a directory included, and when the file is blank;
    and whatever the file parses to otherwise, an object or not. *)
Theorem loadConfig_never_throws (home : string) (s : gmap path node) :
  ∃ config,
    loadConfig home s = (s, Ok config)
    ∧ ((∀ c, stat s (resolve (CONFIG_PATH home)) ≠ Some (File c)) → config = JObj [])
    ∧ (∀ c, stat s (resolve (CONFIG_PATH home)) = Some (File c) →
            (skip_ws c = "" → config = JObj [])
            ∧ (∀ v, JSON_parse c = Some v → config = v)).
Proof.
  eexists. split; [apply loadConfig_run|]. split.
  - intros Hno. destruct (stat s _) as [[c|]|]; [by destruct (Hno c)|done..].
  - intros c ->. split.
    + intros Hb. by rewrite (JSON_parse_blank _ Hb).
    + by intros v ->.
Qed.

Lemma loadConfig_never_throws_witness :
  ∃ config,
    loadConfig "/home/u" (w_fs home_world) = (w_fs home_world, Ok config)
    ∧ config = JObj stored.
Proof.
  destruct (loadConfig_never_throws "/home/u" (w_fs home_world)) as (config & Hl & _ & Hf).
  exists config. split; [exact Hl|].
  apply (proj2 (Hf _ eq_refl)). reflexivity.
Defined.

Lemma assoc_obj_set_eq k v (o : list (string * json)) : Claude.assoc k (obj_set k v o) = Some v.
Proof.
  induction o as [|[k' v'] o IH]; simpl.
  - by rewrite String.eqb_refl.
  - destruct (String.eqb k' k) eqn:E; simpl.
    + by rewrite String.eqb_refl.
    + by rewrite E.
Qed.

Lemma assoc_obj_set_ne k k' v (o : list (string * json)) :
  k' ≠ k → Claude.assoc k' (obj_set k v o) = Claude.assoc k' o.
Proof.
  intros Hne. induction o as [|[k0 v0] o IH]; simpl.
  - by rewrite (proj2 (String.eqb_neq k k')).
  - destruct (String.eqb k0 k) eqn:E; simpl.
    + apply String.eqb_eq in E as ->. by rewrite !(proj2 (String.eqb_neq k k')).
    + by rewrite IH.
Qed.








Lemma bind_log {A} line (k : unit → Run A) w :
  (let! x := console_log line in k x) w = k tt (after w [EvLog line]).
Proof. reflexivity. Qed.

Lemma bind_lift {A B} (x : A) (k : A → Run B) w :
  (let! y := lift (Ok x) in k y) w = k x w.
Proof. reflexivity. Qed.









Lemma bind_ok {A B} (m : Run A) (k : A → Run B) w w' x :
  m w = (w', Ok x) → (let! y := m in k y) w = k x w'.
Proof. intros H. unfold bind. by rewrite H. Qed.





Lemma bind_keep {B} k a o (K : json → Run B) w :
  (let! config :=
     (if negb (String.eqb a "") then lift (set_member k (JStr a) (JObj o))
      else ret (JObj o))
   in K config) w
  = K (JObj (keep k a o)) w.
Proof. unfold keep. by destruct (String.eqb a ""). Qed.

Lemma assoc_keep_ne k k' a (o : list (string * json)) :
  k' ≠ k → Claude.assoc k' (keep k a o) = Claude.assoc k' o.
Proof. intros H. unfold keep. destruct (String.eqb a ""); [done|by apply assoc_obj_set_ne]. Qed.

(** X24.  Every action of [config] but [show], given no option, runs
    the interactive set-up, [set] included.  On a configuration that
    is an object it stores the answers in the file and makes no
    request: a key that is answered replaces the stored key and a key
    left empty keeps it, while the framework and the output directory
    are always replaced by their answers. *)
Theorem config_init_saves_the_answers (home : string) (E : env) (A : answers)
    (action : option string) (w : world) (o : list (string * json)) :
  action ≠ Some "show" →
  (loadConfig home (w_fs w)).2 = Ok (JObj o) →
  stat (w_fs w) (resolve (CONFIG_PATH home)) ≠ Some Dir →
  stat (w_fs w) (parent (resolve (CONFIG_PATH home))) = Some Dir →
  let o' :=
    obj_set "defaultOutputDir" (JStr (a_defaultOutputDir A))
      (obj_set "defaultFramework" (JStr (a_defaultFramework A))
         (keep "anthropicApiKey" (a_anthropicApiKey A)
            (keep "geminiApiKey" (a_geminiApiKey A) o))) in
  ∃ evs,
    configCommand home E A action no_options w
    = (after (on_fs (<[resolve (CONFIG_PATH home) := File (JSON_stringify (JObj o'))]>
                       (w_fs w)) w) evs, Ok tt)
    ∧ offline evs = true
    ∧ (a_geminiApiKey A = "" →
       Claude.assoc "geminiApiKey" o' = Claude.assoc "geminiApiKey" o)
    ∧ (a_geminiApiKey A ≠ "" →
       Claude.assoc "geminiApiKey" o' = Some (JStr (a_geminiApiKey A)))
    ∧ (a_anthropicApiKey A = "" →
       Claude.assoc "anthropicApiKey" o' = Claude.assoc "anthropicApiKey" o)
    ∧ Claude.assoc "defaultFramework" o' = Some (JStr (a_defaultFramework A))
    ∧ Claude.assoc "defaultOutputDir" o' = Some (JStr (a_defaultOutputDir A)).
Proof.
  intros Hact Hload Hnd Hpar o'.
  assert (in_fs (loadConfig home) w = (w, Ok (JObj o))) as Hl.
  { apply in_fs_same. rewrite loadConfig_run in Hload |- *. simpl in Hload. by rewrite Hload. }
  eexists. split_and!.
  - unfold configCommand. unfold bind at 1. rewrite Hl. cbn [no_options cfg_gemini cfg_anthropic
      cfg_framework cfg_output configured]. rewrite bool_decide_eq_false_2 by done.
    unfold init. rewrite bind_log. cbn [get_member]. rewrite !bind_lift.
    rewrite !bind_keep. cbn [set_member]. rewrite bind_lift.
    cbn [set_member]. rewrite bind_lift. fold o'.
    erewrite bind_ok; [|apply in_fs_run, writeFileSync_run; [exact Hnd|exact Hpar]].
    rewrite !bind_log. unfold console_log. rewrite emit_run, on_fs_after, !after_after.
    reflexivity.
  - reflexivity.
  - intros Hg. subst o'. rewrite !assoc_obj_set_ne, assoc_keep_ne by done.
    unfold keep. by rewrite Hg.
  - intros Hg. subst o'. rewrite !assoc_obj_set_ne, assoc_keep_ne by done.
    unfold keep. rewrite (proj2 (String.eqb_neq _ _) Hg). apply assoc_obj_set_eq.
  - intros Ha. subst o'. rewrite !assoc_obj_set_ne by done.
    unfold keep at 1. rewrite Ha. cbn [String.eqb]. by apply assoc_keep_ne.
  - subst o'. rewrite assoc_obj_set_ne by done. apply assoc_obj_set_eq.
  - apply assoc_obj_set_eq.
Qed.

Lemma config_init_saves_the_answers_witness :
  let o' := [("geminiApiKey", JStr "sk-old-1234"); ("defaultFramework", JStr "nextjs");
             ("defaultOutputDir", JStr "./output")] in
  ∃ evs,
    configCommand "/home/u" bare_env no_answers (Some "set") no_options home_world
    = (after (on_fs (<[resolve (CONFIG_PATH "/home/u") := File (JSON_stringify (JObj o'))]>
                       (w_fs home_world)) home_world) evs, Ok tt)
    ∧ offline evs = true.
Proof.
  intros o'.
  destruct (config_init_saves_the_answers "/home/u" bare_env no_answers (Some "set")
              home_world stored ltac:(done) eq_refl ltac:(by vm_compute) eq_refl)
    as (evs & Hrun & Hoff & _).
  exists evs. split; [exact Hrun|exact Hoff].
Defined.

End ConfigFacts.

(** ** The interactive command *)

Section InteractiveFacts.
Import Text Json Eff Fs World Response Cli Effects Js Interactive.




End InteractiveFacts.
